(** * The booking workflow of [statePatternExample.ts]

    A [Context] object holds a reference to its active state object; the four
    state classes [CancelledState], [OpenState], [BookedState] and
    [PendingState] implement [AbstractState] ([cancel] and [book]) and replace
    the context's state through [Context.setCurrentState].  Constructing a
    [PendingState] registers a [setTimeout] callback that installs a
    [BookedState] after [BOOKING_DELAY] milliseconds.

    The program is embedded over an explicit store: a heap of state objects
    (object identity is the address), the [Context] objects with their
    [currentState] field, the queue of registered timeouts and a clock. *)

From Corelib Require Import PrimFloat.
From Stdlib Require Import NArith String Lia.
From stdpp Require Import base tactics option list sorting.

Local Open Scope string_scope.

(** ** Values and objects *)

(** Addresses of state objects and of [Context] objects. *)
Abbreviation ref := nat (only parsing).
Abbreviation cref := nat (only parsing).

(** What a slot typed [number] holds at run time: a double, or [undefined]
    when the slot was never assigned. *)
Inductive value : Type :=
| undefined
| number (f : float).

(** The state objects with their fields.  [PendingState] declares no instance
    field: its constructor arguments live only in the closure it hands to
    [setTimeout]. *)
Inductive AbstractState : Type :=
| CancelledState (oldID : value) (context : cref)
| OpenState (context : cref)
| BookedState (id : value) (context : cref)
| PendingState.

(** [class Context { private currentState: AbstractState; ... }] *)
Record Context : Type := { currentState : ref }.

(** The closure [() => { context.setCurrentState(new BookedState(id, context)) }]
    with the time at which it is due. *)
Record timeout : Type := { due : N; cb_id : value; cb_context : cref }.

Record world : Type := World {
  now : N;                      (* milliseconds *)
  heap : list AbstractState;    (* state objects, by address *)
  contexts : list Context;      (* Context objects, by address *)
  timers : list timeout;        (* registered timeouts, earliest first *)
  draws : nat                   (* calls of Math.random() so far *)
}.

Definition empty_world : world :=
  {| now := 0; heap := []; contexts := []; timers := []; draws := 0 |}.

(** ** Effects: state passing with failure

    [None] stands for a run-time error (a thrown exception).  The only
    primitive that can fail is the access through a reference that names no
    object. *)
Definition M (A : Type) : Type := world -> option (A * world).

#[global] Instance M_ret : MRet M := fun A a w => Some (a, w).
#[global] Instance M_bind : MBind M := fun A B f m w =>
  match m w with
  | Some (a, w') => f a w'
  | None => None
  end.

Definition alloc (s : AbstractState) : M ref := fun w =>
  Some (length (heap w),
        {| now := now w; heap := heap w ++ [s]; contexts := contexts w;
           timers := timers w; draws := draws w |}).

Definition deref (this : ref) : M AbstractState := fun w =>
  match heap w !! this with
  | Some s => Some (s, w)
  | None => None
  end.

(** A timeout is queued behind every timeout that is due no later. *)
Fixpoint enqueue (t : timeout) (q : list timeout) : list timeout :=
  match q with
  | [] => [t]
  | t' :: q' => if (due t' <=? due t)%N then t' :: enqueue t q' else t :: q
  end.

Definition setTimeout (id : value) (context : cref) (delay : N) : M unit := fun w =>
  Some (tt,
        {| now := now w; heap := heap w; contexts := contexts w;
           timers := enqueue {| due := now w + delay; cb_id := id; cb_context := context |}
                             (timers w);
           draws := draws w |}).

(** ** The classes *)

Module PendingState_static.
(** [private static readonly BOOKING_DELAY = 10000] *)
Definition BOOKING_DELAY : N := 10000.
End PendingState_static.
Import PendingState_static.

Definition new_CancelledState (oldID : value) (context : cref) : M ref :=
  alloc (CancelledState oldID context).

Definition new_OpenState (context : cref) : M ref :=
  alloc (OpenState context).

(** The constructor assigns [this.context] only: the field [id] stays
    [undefined], whatever the argument [id] is. *)
Definition new_BookedState (id : value) (context : cref) : M ref :=
  alloc (BookedState undefined context).

Definition new_PendingState (id : value) (context : cref) : M ref :=
  this ← alloc PendingState;
  setTimeout id context BOOKING_DELAY;;
  mret this.

(** [public setCurrentState(newState) { this.currentState = newState }] *)
Definition setCurrentState (this : cref) (newState : ref) : M unit := fun w =>
  if decide (this < length (contexts w)) then
    Some (tt,
          {| now := now w; heap := heap w;
             contexts := <[this := {| currentState := newState |}]> (contexts w);
             timers := timers w; draws := draws w |})
  else None.

(** [constructor() { this.currentState = new OpenState(this) }]: the context
    object exists, at the next free address, while its first state is built. *)
Definition next_Context : M cref := fun w => Some (length (contexts w), w).

Definition store_Context (o : Context) : M cref := fun w =>
  Some (length (contexts w),
        {| now := now w; heap := heap w; contexts := contexts w ++ [o];
           timers := timers w; draws := draws w |}).

Definition new_Context : M cref :=
  this ← next_Context;
  s ← new_OpenState this;
  store_Context {| currentState := s |}.

(** ** The event loop

    A timeout that is due runs its closure outside of any caller's action:
    the closure builds a [BookedState] from the captured [id] and [context]
    and hands it to [setCurrentState]. *)
Definition run_callback (t : timeout) : M unit :=
  b ← new_BookedState (cb_id t) (cb_context t);
  setCurrentState (cb_context t) b.

Fixpoint run_callbacks (ts : list timeout) : M unit :=
  match ts with
  | [] => mret tt
  | t :: ts' => run_callback t;; run_callbacks ts'
  end.

(** The timeouts at the head of the queue that are due by [until], and the
    rest of the queue. *)
Fixpoint ready (until : N) (q : list timeout) : list timeout :=
  match q with
  | [] => []
  | t :: q' => if (due t <=? until)%N then t :: ready until q' else []
  end.

Fixpoint later (until : N) (q : list timeout) : list timeout :=
  match q with
  | [] => []
  | t :: q' => if (due t <=? until)%N then later until q' else q
  end.

(** [ms] milliseconds pass without a caller's action: the timeouts that fall
    due leave the queue and run, earliest first.  (No closure of this program
    reads the clock or the queue.) *)
Definition elapse (ms : N) : M unit := fun w =>
  let until := (now w + ms)%N in
  run_callbacks (ready until (timers w))
    {| now := until; heap := heap w; contexts := contexts w;
       timers := later until (timers w); draws := draws w |}.

(** The object a context's [currentState] field refers to. *)
Definition active (c : cref) : M ref := fun w =>
  match contexts w !! c with
  | Some o => Some (currentState o, w)
  | None => None
  end.

Section Runtime.

(** The host's [Math.random] (its n-th result) and the conversion of a
    double to a string that a template literal applies. *)
Variable Math_random : nat -> float.
Variable Number_toString : float -> string.

Definition random : M float := fun w =>
  Some (Math_random (draws w),
        {| now := now w; heap := heap w; contexts := contexts w;
           timers := timers w; draws := S (draws w) |}).

Definition ToString (v : value) : string :=
  match v with
  | undefined => "undefined"
  | number f => Number_toString f
  end.

Definition cancel (this : ref) : M string :=
  s ← deref this;
  match s with
  | CancelledState oldID context =>
      mret "You've already cancelled this!"
  | OpenState context =>
      mret "You haven't booked anything yet"
  | BookedState id context =>
      c ← new_CancelledState id context;
      setCurrentState context c;;
      mret "Event cancelled"
  | PendingState =>
      mret "Please wait for booking to load before performing an action!"
  end.

Definition book (this : ref) : M string :=
  s ← deref this;
  match s with
  | CancelledState oldID context =>
      p ← new_PendingState oldID context;
      setCurrentState context p;;
      mret ("Rebooked using old ID: " ++ ToString oldID)
  | OpenState context =>
      r ← random;
      let id := number (r * 100)%float in
      p ← new_PendingState id context;
      setCurrentState context p;;
      mret ("Event booked with id: " ++ ToString id)
  | BookedState id context =>
      mret "You've already booked this event!"
  | PendingState =>
      mret "Please wait for booking to load before performing an action!"
  end.

(** Modelled from the spec: the class [Context] of the source has no method
    that forwards a call to its active state.  Section 4.1 of the spec
    describes [requestAction] as [activeState.book()] and [requestCancel] as
    [activeState.cancel()]; they stand here for the caller's code, which
    reaches the handlers through the context's active state only. *)
Definition requestAction (c : cref) : M string :=
  s ← active c;
  book s.

Definition requestCancel (c : cref) : M string :=
  s ← active c;
  cancel s.

(** What happens to one context: a caller's request, or time passing. *)
Inductive request : Type :=
| Book
| Cancel
| Wait (ms : N).

Fixpoint drive (c : cref) (rs : list request) : M (list string) :=
  match rs with
  | [] => mret []
  | Book :: rs' =>
      m ← requestAction c; ms ← drive c rs'; mret (m :: ms)
  | Cancel :: rs' =>
      m ← requestCancel c; ms ← drive c rs'; mret (m :: ms)
  | Wait ms :: rs' =>
      elapse ms;; drive c rs'
  end.

(** A program that creates one context and drives it. *)
Definition session (rs : list request) : M (cref * list string) :=
  c ← new_Context;
  ms ← drive c rs;
  mret (c, ms).

End Runtime.

Local Open Scope list_scope.

#[global] Instance request_eq_dec : EqDecision request.
Proof. solve_decision. Defined.

(** ** The declared interfaces *)

Inductive ts_type : Type :=
| ts_void
| ts_string
| ts_number
| ts_AbstractState
| ts_Context.

Record signature : Type :=
  { name : string; params : list (string * ts_type); returns : ts_type }.

(** [interface AbstractState { cancel(): string; book(): string }] *)
Definition AbstractState_methods : list signature :=
  [ {| name := "cancel"; params := []; returns := ts_string |};
    {| name := "book"; params := []; returns := ts_string |} ].

(** The methods of [class Context] that are not private (its constructor
    aside). *)
Definition Context_public_methods : list signature :=
  [ {| name := "setCurrentState"; params := [("newState", ts_AbstractState)];
       returns := ts_void |} ].

(** [constructor(id: number, context: Context)] of [PendingState] *)
Definition PendingState_constructor_params : list (string * ts_type) :=
  [ ("id", ts_number); ("context", ts_Context) ].

(** * Vocabulary of the statements *)

(** The answer of a [PendingState] to both requests. *)
Definition please_wait : string :=
  "Please wait for booking to load before performing an action!".

(** ** Well-formed stores: every reference names an object *)

Definition context_of (s : AbstractState) : option cref :=
  match s with
  | CancelledState _ c | OpenState c | BookedState _ c => Some c
  | PendingState => None
  end.

Definition refers_within (n : nat) (s : AbstractState) : Prop :=
  forall c, context_of s = Some c -> c < n.

Record wf (w : world) : Prop := {
  wf_heap : Forall (refers_within (length (contexts w))) (heap w);
  wf_contexts : Forall (fun o => currentState o < length (heap w)) (contexts w);
  wf_timers : Forall (fun t => cb_context t < length (contexts w)) (timers w)
}.

(** ** What one call can do to the store *)

(** A call made on behalf of the context [c] either leaves the store as it
    is, or allocates one state object, not an [OpenState], and makes it the
    active state of [c]. *)
Inductive transition (c : cref) (w w' : world) : Prop :=
| stay : w' = w -> transition c w w'
| install (s : AbstractState) :
    c < length (contexts w) ->
    heap w' = heap w ++ [s] ->
    contexts w' = <[c := {| currentState := length (heap w) |}]> (contexts w) ->
    (forall c', s <> OpenState c') ->
    transition c w w'.

(** The state object a call acts on, and the context it refers to
    (a [PendingState] refers to none: it never installs anything). *)
Definition acts_for (w : world) (this : ref) (c : cref) : Prop :=
  exists s, heap w !! this = Some s /\
            match context_of s with Some c' => c' = c | None => True end.

(** ** One context, driven through its active state

    What a session can reach: the store holds the single context 0, whose
    active state is in one of the four classes; a timeout is queued exactly
    while the active state is a [PendingState]. *)

Inductive phase (w : world) : Prop :=
| phase_Open (s : ref) :
    contexts w = [{| currentState := s |}] ->
    heap w !! s = Some (OpenState 0) ->
    timers w = [] -> draws w = 0 -> phase w
| phase_Pending (s : ref) (t : timeout) :
    contexts w = [{| currentState := s |}] ->
    heap w !! s = Some PendingState ->
    timers w = [t] -> cb_context t = 0 -> draws w = 1 -> phase w
| phase_Booked (s : ref) :
    contexts w = [{| currentState := s |}] ->
    heap w !! s = Some (BookedState undefined 0) ->
    timers w = [] -> draws w = 1 -> phase w
| phase_Cancelled (s : ref) :
    contexts w = [{| currentState := s |}] ->
    heap w !! s = Some (CancelledState undefined 0) ->
    timers w = [] -> draws w = 1 -> phase w.

(** A context that has left [OpenState] has drawn its one identifier. *)
Definition booked_once (rs : list request) (before after : nat) : Prop :=
  (Book ∈ rs -> after = 1) /\ (Book ∉ rs -> after = before).

(** ** Sample stores and a sample host *)

(** A host whose [Math.random] returns 0.5, so that the identifier drawn is
    50, with the rendering of that double. *)
Definition half : nat -> float := fun _ => 0.5%float.
Definition fifty : float -> string := fun _ => "50".

(** The store after [new Context()], after its first [book()], and after the
    booking was completed and cancelled. *)
Definition w_open : world :=
  {| now := 0; heap := [OpenState 0]; contexts := [{| currentState := 0 |}];
     timers := []; draws := 0 |}.

Definition w_pending : world :=
  {| now := 0; heap := [OpenState 0; PendingState];
     contexts := [{| currentState := 1 |}];
     timers := [{| due := 10000; cb_id := number 50; cb_context := 0 |}];
     draws := 1 |}.

Definition w_cancelled : world :=
  {| now := 10000;
     heap := [OpenState 0; PendingState; BookedState undefined 0;
              CancelledState undefined 0];
     contexts := [{| currentState := 3 |}];
     timers := []; draws := 1 |}.

(** ** The workflow of one context as an automaton

    What the answers to the requests on one context depend on: the clock,
    the number of identifiers drawn so far, and the stage of the booking.  A
    pending booking is completed at a fixed time; a completed booking holds
    the [id] field of its [BookedState], a cancelled one the [oldID] of its
    [CancelledState]. *)

Inductive stage : Type :=
| in_Open
| in_Pending (completes : N)
| in_Booked (id : value)
| in_Cancelled (oldID : value).

Record machine : Type := { m_now : N; m_draws : nat; m_stage : stage }.

Definition machine_step (Math_random : nat -> float) (Number_toString : float -> string)
    (r : request) (m : machine) : list string * machine :=
  match r, m_stage m with
  | Book, in_Open =>
      ([("Event booked with id: "
           ++ Number_toString (Math_random (m_draws m) * 100)%float)%string],
       {| m_now := m_now m; m_draws := S (m_draws m);
          m_stage := in_Pending (m_now m + BOOKING_DELAY) |})
  | Book, in_Pending _ => ([please_wait], m)
  | Book, in_Booked _ => (["You've already booked this event!"], m)
  | Book, in_Cancelled oldID =>
      ([("Rebooked using old ID: " ++ ToString Number_toString oldID)%string],
       {| m_now := m_now m; m_draws := m_draws m;
          m_stage := in_Pending (m_now m + BOOKING_DELAY) |})
  | Cancel, in_Open => (["You haven't booked anything yet"], m)
  | Cancel, in_Pending _ => ([please_wait], m)
  | Cancel, in_Booked id =>
      (["Event cancelled"],
       {| m_now := m_now m; m_draws := m_draws m; m_stage := in_Cancelled id |})
  | Cancel, in_Cancelled _ => (["You've already cancelled this!"], m)
  | Wait ms, st =>
      ([],
       {| m_now := m_now m + ms; m_draws := m_draws m;
          m_stage := match st with
                     | in_Pending d =>
                         if (d <=? m_now m + ms)%N then in_Booked undefined else st
                     | _ => st
                     end |})
  end.

Fixpoint machine_run (Math_random : nat -> float) (Number_toString : float -> string)
    (rs : list request) (m : machine) : list string * machine :=
  match rs with
  | [] => ([], m)
  | r :: rs' =>
      let '(a, m1) := machine_step Math_random Number_toString r m in
      let '(b, m2) := machine_run Math_random Number_toString rs' m1 in
      (a ++ b, m2)
  end.

(** The queued timeouts whose closure captured the context [c]. *)
Definition own_timers (c : cref) (w : world) : list timeout :=
  filter (fun t => cb_context t = c) (timers w).

(** The queue is in the order in which the timeouts fall due. *)
Definition in_order (q : list timeout) : Prop :=
  StronglySorted (fun a b => (due a <= due b)%N) q.

(** The store [w] holds the context [c] at the stage the automaton is in:
    the active state of [c] is an object of the class of the stage that
    refers back to [c], and a timeout of [c] is queued exactly while the
    booking is pending.  Other contexts and their timeouts are free. *)
Definition at_stage (c : cref) (st : stage) (w : world) : Prop :=
  exists s x,
    contexts w !! c = Some {| currentState := s |}
    /\ heap w !! s = Some x
    /\ match st with
       | in_Open => x = OpenState c /\ own_timers c w = []
       | in_Pending d =>
           x = PendingState
           /\ exists id, own_timers c w = [{| due := d; cb_id := id; cb_context := c |}]
       | in_Booked id => x = BookedState id c /\ own_timers c w = []
       | in_Cancelled oldID => x = CancelledState oldID c /\ own_timers c w = []
       end.

Record tracks (c : cref) (m : machine) (w : world) : Prop := {
  tracks_wf : wf w;
  tracks_order : in_order (timers w);
  tracks_now : now w = m_now m;
  tracks_draws : draws w = m_draws m;
  tracks_stage : at_stage c (m_stage m) w
}.

(** The time that passes in a sequence of requests, and the number of calls
    it makes. *)
Fixpoint total_wait (rs : list request) : N :=
  match rs with
  | [] => 0
  | Wait ms :: rs' => ms + total_wait rs'
  | _ :: rs' => total_wait rs'
  end.

Fixpoint calls (rs : list request) : nat :=
  match rs with
  | [] => 0
  | Wait _ :: rs' => calls rs'
  | _ :: rs' => S (calls rs')
  end.

(** The store of [w_pending] once the booking is completed. *)
Definition w_booked : world :=
  {| now := 10000;
     heap := [OpenState 0; PendingState; BookedState undefined 0];
     contexts := [{| currentState := 2 |}];
     timers := []; draws := 1 |}.

(** A store with two contexts: context 0 is open, context 1 has a pending
    booking. *)
Definition w_two : world :=
  {| now := 0;
     heap := [OpenState 0; OpenState 1; PendingState];
     contexts := [{| currentState := 0 |}; {| currentState := 2 |}];
     timers := [{| due := 10000; cb_id := number 50; cb_context := 1 |}];
     draws := 1 |}.

(** Running the constructors and the primitives of the store. *)
Ltac exec :=
  cbv [new_PendingState new_CancelledState new_BookedState new_OpenState
       new_Context next_Context store_Context run_callback setTimeout alloc
       random mbind M_bind mret M_ret];
  cbn [now heap contexts timers draws fst snd].

(** * Lemmas *)

(** ** Running the primitives *)

Lemma deref_Some (w : world) (this : ref) (s : AbstractState) :
  heap w !! this = Some s -> deref this w = Some (s, w).
Proof. intros H. unfold deref. now rewrite H. Qed.

Lemma active_Some (w : world) (c : cref) (s : ref) :
  contexts w !! c = Some {| currentState := s |} -> active c w = Some (s, w).
Proof. intros H. unfold active. now rewrite H. Qed.

Lemma setCurrentState_Some (w : world) (c : cref) (s : ref) :
  c < length (contexts w) ->
  setCurrentState c s w =
    Some (tt, {| now := now w; heap := heap w;
                 contexts := <[c := {| currentState := s |}]> (contexts w);
                 timers := timers w; draws := draws w |}).
Proof. intros H. unfold setCurrentState. now rewrite decide_True. Qed.

Section Handlers.

Variable Math_random : nat -> float.
Variable Number_toString : float -> string.

Local Abbreviation book := (book Math_random Number_toString).
Local Abbreviation ToString := (ToString Number_toString).

Lemma book_OpenState (w : world) (this : ref) (c : cref) :
  heap w !! this = Some (OpenState c) ->
  c < length (contexts w) ->
  book this w =
    Some (("Event booked with id: "
             ++ Number_toString (Math_random (draws w) * 100)%float)%string,
          {| now := now w;
             heap := heap w ++ [PendingState];
             contexts := <[c := {| currentState := length (heap w) |}]> (contexts w);
             timers := enqueue {| due := now w + BOOKING_DELAY;
                                  cb_id := number (Math_random (draws w) * 100)%float;
                                  cb_context := c |} (timers w);
             draws := S (draws w) |}).
Proof.
  intros Hthis Hc. unfold book, mbind at 1, M_bind.
  rewrite (deref_Some _ _ _ Hthis). exec.
  now rewrite setCurrentState_Some.
Qed.

Lemma book_CancelledState (w : world) (this : ref) (oldID : value) (c : cref) :
  heap w !! this = Some (CancelledState oldID c) ->
  c < length (contexts w) ->
  book this w =
    Some (("Rebooked using old ID: " ++ ToString oldID)%string,
          {| now := now w;
             heap := heap w ++ [PendingState];
             contexts := <[c := {| currentState := length (heap w) |}]> (contexts w);
             timers := enqueue {| due := now w + BOOKING_DELAY;
                                  cb_id := oldID; cb_context := c |} (timers w);
             draws := draws w |}).
Proof.
  intros Hthis Hc. unfold book, mbind at 1, M_bind.
  rewrite (deref_Some _ _ _ Hthis). exec.
  now rewrite setCurrentState_Some.
Qed.

Lemma book_BookedState (w : world) (this : ref) (id : value) (c : cref) :
  heap w !! this = Some (BookedState id c) ->
  book this w = Some ("You've already booked this event!", w).
Proof.
  intros Hthis. unfold book, mbind at 1, M_bind.
  now rewrite (deref_Some _ _ _ Hthis).
Qed.

Lemma book_PendingState (w : world) (this : ref) :
  heap w !! this = Some PendingState ->
  book this w = Some (please_wait, w).
Proof.
  intros Hthis. unfold book, mbind at 1, M_bind.
  now rewrite (deref_Some _ _ _ Hthis).
Qed.

Lemma cancel_CancelledState (w : world) (this : ref) (oldID : value) (c : cref) :
  heap w !! this = Some (CancelledState oldID c) ->
  cancel this w = Some ("You've already cancelled this!", w).
Proof.
  intros Hthis. unfold cancel, mbind at 1, M_bind.
  now rewrite (deref_Some _ _ _ Hthis).
Qed.

Lemma cancel_OpenState (w : world) (this : ref) (c : cref) :
  heap w !! this = Some (OpenState c) ->
  cancel this w = Some ("You haven't booked anything yet", w).
Proof.
  intros Hthis. unfold cancel, mbind at 1, M_bind.
  now rewrite (deref_Some _ _ _ Hthis).
Qed.

Lemma cancel_BookedState (w : world) (this : ref) (id : value) (c : cref) :
  heap w !! this = Some (BookedState id c) ->
  c < length (contexts w) ->
  cancel this w =
    Some ("Event cancelled",
          {| now := now w;
             heap := heap w ++ [CancelledState id c];
             contexts := <[c := {| currentState := length (heap w) |}]> (contexts w);
             timers := timers w;
             draws := draws w |}).
Proof.
  intros Hthis Hc. unfold cancel, mbind at 1, M_bind.
  rewrite (deref_Some _ _ _ Hthis). exec.
  now rewrite setCurrentState_Some.
Qed.

Lemma cancel_PendingState (w : world) (this : ref) :
  heap w !! this = Some PendingState ->
  cancel this w = Some (please_wait, w).
Proof.
  intros Hthis. unfold cancel, mbind at 1, M_bind.
  now rewrite (deref_Some _ _ _ Hthis).
Qed.

End Handlers.

Lemma new_PendingState_run (id : value) (c : cref) (w : world) :
  new_PendingState id c w =
    Some (length (heap w),
          {| now := now w;
             heap := heap w ++ [PendingState];
             contexts := contexts w;
             timers := enqueue {| due := now w + BOOKING_DELAY;
                                  cb_id := id; cb_context := c |} (timers w);
             draws := draws w |}).
Proof. reflexivity. Qed.

Lemma run_callback_run (t : timeout) (w : world) :
  cb_context t < length (contexts w) ->
  run_callback t w =
    Some (tt,
          {| now := now w;
             heap := heap w ++ [BookedState undefined (cb_context t)];
             contexts := <[cb_context t := {| currentState := length (heap w) |}]>
                           (contexts w);
             timers := timers w;
             draws := draws w |}).
Proof. intros Hc. exec. now rewrite setCurrentState_Some. Qed.

(** ** The timeout queue *)

Lemma elem_of_enqueue (t t0 : timeout) (q : list timeout) :
  t ∈ enqueue t0 q <-> t = t0 \/ t ∈ q.
Proof.
  induction q as [|t' q IH]; simpl.
  - rewrite list_elem_of_singleton, elem_of_nil. tauto.
  - destruct (due t' <=? due t0)%N.
    + rewrite !elem_of_cons, IH. tauto.
    + rewrite !elem_of_cons. tauto.
Qed.

Lemma Forall_enqueue (P : timeout -> Prop) (t : timeout) (q : list timeout) :
  P t -> Forall P q -> Forall P (enqueue t q).
Proof.
  intros Ht Hq. apply Forall_forall. intros x Hx.
  apply elem_of_enqueue in Hx as [->|Hx]; [done|].
  rewrite Forall_forall in Hq. now apply Hq.
Qed.

Lemma ready_later (until : N) (q : list timeout) :
  ready until q ++ later until q = q.
Proof.
  induction q as [|t q IH]; simpl; [done|].
  destruct (due t <=? until)%N; simpl; [now rewrite IH | done].
Qed.

(** The timeout just registered is the last one to run among those due at
    its own time. *)
Lemma ready_enqueue (t : timeout) (q : list timeout) :
  ready (due t) (enqueue t q) = ready (due t) q ++ [t].
Proof.
  induction q as [|t' q IH]; simpl.
  - now rewrite N.leb_refl.
  - destruct (due t' <=? due t)%N eqn:E; simpl.
    + now rewrite E, IH.
    + now rewrite N.leb_refl, E.
Qed.

Lemma later_enqueue (t : timeout) (q : list timeout) :
  later (due t) (enqueue t q) = later (due t) q.
Proof.
  induction q as [|t' q IH]; simpl.
  - now rewrite N.leb_refl.
  - destruct (due t' <=? due t)%N eqn:E; simpl.
    + now rewrite E, IH.
    + now rewrite N.leb_refl, E.
Qed.

(** ** Well-formed stores *)

Lemma wf_empty_world : wf empty_world.
Proof. split; simpl; constructor. Qed.

(** Allocating a state object and making it the active state of an existing
    context keeps the store well formed. *)
Lemma wf_install (w w' : world) (c : cref) (s : AbstractState) :
  wf w ->
  c < length (contexts w) ->
  refers_within (length (contexts w)) s ->
  heap w' = heap w ++ [s] ->
  contexts w' = <[c := {| currentState := length (heap w) |}]> (contexts w) ->
  Forall (fun t => cb_context t < length (contexts w)) (timers w') ->
  wf w' /\ length (contexts w') = length (contexts w).
Proof.
  intros [Hh Hc Ht] Hlt Hs Eh Ec Ht'.
  assert (El : length (contexts w') = length (contexts w))
    by (rewrite Ec; apply length_insert).
  split; [|done]. split; rewrite ?El, ?Eh, ?Ec.
  - apply Forall_app. split; [done|]. now repeat constructor.
  - rewrite length_app. simpl. apply Forall_insert; simpl; [|lia].
    eapply Forall_impl; [exact Hc|]. simpl. intros; lia.
  - done.
Qed.

Lemma wf_now (w w' : world) :
  wf w -> heap w' = heap w -> contexts w' = contexts w ->
  Forall (fun t => cb_context t < length (contexts w)) (timers w') ->
  wf w'.
Proof.
  intros [Hh Hc Ht] Eh Ec Ht'. split; now rewrite ?Eh, ?Ec.
Qed.

Lemma wf_lookup (w : world) (this : ref) :
  wf w -> this < length (heap w) ->
  exists s, heap w !! this = Some s /\ refers_within (length (contexts w)) s.
Proof.
  intros Hwf Hlt. destruct (lookup_lt_is_Some_2 _ _ Hlt) as [s Hs].
  exists s. split; [done|].
  exact (proj1 (Forall_lookup _ _) (wf_heap _ Hwf) _ _ Hs).
Qed.

Lemma active_wf (w : world) (c : cref) :
  wf w -> c < length (contexts w) ->
  exists s, contexts w !! c = Some {| currentState := s |} /\ s < length (heap w).
Proof.
  intros Hwf Hlt. destruct (lookup_lt_is_Some_2 _ _ Hlt) as [[s] Hs].
  exists s. split; [done|].
  exact (proj1 (Forall_lookup _ _) (wf_contexts _ Hwf) _ _ Hs).
Qed.

Section NoFailure.

Variable Math_random : nat -> float.
Variable Number_toString : float -> string.

Local Abbreviation book' := (book Math_random Number_toString).
Local Abbreviation drive' := (drive Math_random Number_toString).
Local Abbreviation requestAction' := (requestAction Math_random Number_toString).

Lemma book_wf (w : world) (this : ref) :
  wf w -> this < length (heap w) ->
  exists m w', book' this w = Some (m, w') /\ wf w'
               /\ length (contexts w') = length (contexts w).
Proof.
  intros Hwf Hlt. destruct (wf_lookup _ _ Hwf Hlt) as (s & Hs & Hc).
  destruct s as [oldID c|c|id c|].
  - assert (c < length (contexts w)) by now apply Hc.
    eexists _, _. split; [eapply book_CancelledState; eassumption|].
    apply (wf_install w _ c PendingState); try done.
    apply Forall_enqueue; [done | apply Hwf].
  - assert (c < length (contexts w)) by now apply Hc.
    eexists _, _. split; [eapply book_OpenState; eassumption|].
    apply (wf_install w _ c PendingState); try done.
    apply Forall_enqueue; [done | apply Hwf].
  - eexists _, _. split; [eapply book_BookedState; eauto|done].
  - eexists _, _. split; [eapply book_PendingState; eauto|done].
Qed.

Lemma cancel_wf (w : world) (this : ref) :
  wf w -> this < length (heap w) ->
  exists m w', cancel this w = Some (m, w') /\ wf w'
               /\ length (contexts w') = length (contexts w).
Proof.
  intros Hwf Hlt. destruct (wf_lookup _ _ Hwf Hlt) as (s & Hs & Hc).
  destruct s as [oldID c|c|id c|].
  - eexists _, _. split; [eapply cancel_CancelledState; eauto|done].
  - eexists _, _. split; [eapply cancel_OpenState; eauto|done].
  - assert (c < length (contexts w)) by now apply Hc.
    eexists _, _. split; [eapply cancel_BookedState; eassumption|].
    apply (wf_install w _ c (CancelledState id c)); try done.
    apply Hwf.
  - eexists _, _. split; [eapply cancel_PendingState; eauto|done].
Qed.

Lemma run_callbacks_wf (ts : list timeout) (w : world) :
  wf w -> Forall (fun t => cb_context t < length (contexts w)) ts ->
  exists w', run_callbacks ts w = Some (tt, w') /\ wf w'
             /\ length (contexts w') = length (contexts w).
Proof.
  revert w. induction ts as [|t ts IH]; intros w Hwf Hts.
  - now exists w.
  - apply Forall_cons in Hts as [Ht Hts].
    destruct (wf_install w
                {| now := now w;
                   heap := heap w ++ [BookedState undefined (cb_context t)];
                   contexts := <[cb_context t := {| currentState := length (heap w) |}]>
                                 (contexts w);
                   timers := timers w; draws := draws w |}
                (cb_context t) (BookedState undefined (cb_context t)))
      as [Hwf1 El]; try done.
    { intros c' [= <-]. done. }
    { apply Hwf. }
    destruct (IH _ Hwf1) as (w' & Hrun & Hwf' & El').
    { now rewrite El. }
    exists w'. split; [|split; [done | now rewrite El', El]].
    simpl. unfold mbind, M_bind. now rewrite run_callback_run.
Qed.

Lemma elapse_wf (ms : N) (w : world) :
  wf w ->
  exists w', elapse ms w = Some (tt, w') /\ wf w'
             /\ length (contexts w') = length (contexts w).
Proof.
  intros Hwf. unfold elapse.
  pose proof (wf_timers _ Hwf) as Ht.
  rewrite <- (ready_later (now w + ms) (timers w)) in Ht.
  apply Forall_app in Ht as [Hr Hl].
  set (w0 := {| now := now w + ms; heap := heap w; contexts := contexts w;
                timers := later (now w + ms) (timers w); draws := draws w |}).
  destruct (run_callbacks_wf (ready (now w + ms) (timers w)) w0)
    as (w' & Hrun & Hwf' & El); [now apply (wf_now w) | done |].
  now exists w'.
Qed.

Lemma new_Context_wf (w : world) :
  wf w ->
  exists w', new_Context w = Some (length (contexts w), w') /\ wf w'
             /\ length (contexts w') = S (length (contexts w)).
Proof.
  intros [Hh Hc Ht]. eexists. split; [reflexivity|].
  split; [split|]; simpl; rewrite ?length_app; simpl.
  - apply Forall_app. split.
    + eapply Forall_impl; [exact Hh|]. intros s Hs c E. specialize (Hs c E). lia.
    + repeat constructor. intros c [= <-]. lia.
  - apply Forall_app. split.
    + eapply Forall_impl; [exact Hc|]. simpl. intros; lia.
    + repeat constructor. simpl. lia.
  - eapply Forall_impl; [exact Ht|]. simpl. intros; lia.
  - lia.
Qed.

Lemma drive_wf (c : cref) (rs : list request) (w : world) :
  wf w -> c < length (contexts w) ->
  exists ms w', drive' c rs w = Some (ms, w') /\ wf w'
                /\ length (contexts w') = length (contexts w).
Proof.
  revert w. induction rs as [|r rs IH]; intros w Hwf Hc.
  - now exists [], w.
  - destruct r as [| |ms]; simpl; unfold mbind at 1, M_bind.
    + destruct (active_wf _ _ Hwf Hc) as (s & Hs & Hlt).
      destruct (book_wf _ _ Hwf Hlt) as (m & w1 & Hb & Hwf1 & El).
      unfold requestAction, mbind at 1, M_bind.
      rewrite (active_Some _ _ _ Hs), Hb.
      destruct (IH w1 Hwf1) as (ms & w' & Hd & Hwf' & El'); [now rewrite El|].
      unfold mbind, M_bind. rewrite Hd. eexists _, _. split; [reflexivity|].
      split; [done | now rewrite El', El].
    + destruct (active_wf _ _ Hwf Hc) as (s & Hs & Hlt).
      destruct (cancel_wf _ _ Hwf Hlt) as (m & w1 & Hb & Hwf1 & El).
      unfold requestCancel, mbind at 1, M_bind.
      rewrite (active_Some _ _ _ Hs), Hb.
      destruct (IH w1 Hwf1) as (ms & w' & Hd & Hwf' & El'); [now rewrite El|].
      unfold mbind, M_bind. rewrite Hd. eexists _, _. split; [reflexivity|].
      split; [done | now rewrite El', El].
    + destruct (elapse_wf ms _ Hwf) as (w1 & He & Hwf1 & El).
      rewrite He.
      destruct (IH w1 Hwf1) as (ms' & w' & Hd & Hwf' & El'); [now rewrite El|].
      exists ms', w'. split; [done|]. split; [done | now rewrite El', El].
Qed.

End NoFailure.

(** ** One context, driven through its active state *)

Lemma lookup_fresh (l : list AbstractState) (s : AbstractState) :
  (l ++ [s]) !! length l = Some s.
Proof. now apply list_lookup_middle. Qed.

Section Sessions.

Variable Math_random : nat -> float.
Variable Number_toString : float -> string.

Local Abbreviation requestAction' := (requestAction Math_random Number_toString).
Local Abbreviation drive' := (drive Math_random Number_toString).
Local Abbreviation session' := (session Math_random Number_toString).

Lemma new_Context_phase :
  new_Context empty_world =
    Some (0, {| now := 0; heap := [OpenState 0];
                contexts := [{| currentState := 0 |}];
                timers := []; draws := 0 |}).
Proof. reflexivity. Qed.

Lemma requestAction_phase (w : world) :
  phase w ->
  exists m w', requestAction' 0 w = Some (m, w') /\ phase w' /\ draws w' = 1.
Proof.
  intros [s Hc Hs Ht Hd|s t Hc Hs Ht Hct Hd|s Hc Hs Ht Hd|s Hc Hs Ht Hd];
    unfold requestAction, mbind, M_bind;
    rewrite (active_Some w 0 s) by now rewrite Hc.
  - rewrite (book_OpenState _ _ w s 0 Hs) by (rewrite Hc; simpl; lia).
    eexists _, _. split; [reflexivity|]. rewrite Hc, Ht, Hd. simpl.
    split; [|done].
    eapply phase_Pending; simpl; try reflexivity. apply lookup_fresh.
  - rewrite (book_PendingState _ _ w s Hs).
    eexists _, _. split; [reflexivity|]. split; [|done].
    now apply (phase_Pending w s t).
  - rewrite (book_BookedState _ _ w s _ _ Hs).
    eexists _, _. split; [reflexivity|]. split; [|done].
    now apply (phase_Booked w s).
  - rewrite (book_CancelledState _ _ w s _ 0 Hs) by (rewrite Hc; simpl; lia).
    eexists _, _. split; [reflexivity|]. rewrite Hc, Ht, Hd. simpl.
    split; [|done].
    eapply phase_Pending; simpl; try reflexivity. apply lookup_fresh.
Qed.

Lemma requestCancel_phase (w : world) :
  phase w ->
  exists m w', requestCancel 0 w = Some (m, w') /\ phase w'
               /\ draws w' = draws w.
Proof.
  intros [s Hc Hs Ht Hd|s t Hc Hs Ht Hct Hd|s Hc Hs Ht Hd|s Hc Hs Ht Hd];
    unfold requestCancel, mbind, M_bind;
    rewrite (active_Some w 0 s) by now rewrite Hc.
  - rewrite (cancel_OpenState w s 0 Hs).
    eexists _, _. split; [reflexivity|]. split; [|done].
    now apply (phase_Open w s).
  - rewrite (cancel_PendingState w s Hs).
    eexists _, _. split; [reflexivity|]. split; [|done].
    now apply (phase_Pending w s t).
  - rewrite (cancel_BookedState w s _ 0 Hs) by (rewrite Hc; simpl; lia).
    eexists _, _. split; [reflexivity|]. rewrite Hc, Ht. simpl.
    split; [|done].
    eapply phase_Cancelled; simpl; try reflexivity; [apply lookup_fresh|done].
  - rewrite (cancel_CancelledState w s _ _ Hs).
    eexists _, _. split; [reflexivity|]. split; [|done].
    now apply (phase_Cancelled w s).
Qed.

Lemma elapse_phase (ms : N) (w : world) :
  phase w ->
  exists w', elapse ms w = Some (tt, w') /\ phase w' /\ draws w' = draws w.
Proof.
  intros [s Hc Hs Ht Hd|s t Hc Hs Ht Hct Hd|s Hc Hs Ht Hd|s Hc Hs Ht Hd];
    unfold elapse; rewrite Ht; simpl.
  - eexists. split; [reflexivity|]. split; [|done].
    now apply (phase_Open _ s).
  - destruct (due t <=? now w + ms)%N; simpl.
    + unfold mbind, M_bind. rewrite run_callback_run by (rewrite Hct, Hc; simpl; lia).
      eexists. split; [reflexivity|]. rewrite Hct, Hc. simpl. split; [|done].
      eapply phase_Booked; simpl; try reflexivity; [apply lookup_fresh|done].
    + eexists. split; [reflexivity|]. split; [|done].
      now apply (phase_Pending _ s t).
  - eexists. split; [reflexivity|]. split; [|done].
    now apply (phase_Booked _ s).
  - eexists. split; [reflexivity|]. split; [|done].
    now apply (phase_Cancelled _ s).
Qed.

Lemma drive_phase (rs : list request) (w : world) :
  phase w ->
  exists ms w', drive' 0 rs w = Some (ms, w') /\ phase w'
                /\ booked_once rs (draws w) (draws w').
Proof.
  revert w. induction rs as [|r rs IH]; intros w Hw.
  - exists [], w. split; [done|]. split; [done|].
    split; [now intros ?%elem_of_nil | done].
  - destruct r as [| |ms]; simpl; unfold mbind at 1, M_bind.
    + destruct (requestAction_phase w Hw) as (m & w1 & -> & Hw1 & Hd1).
      destruct (IH w1 Hw1) as (ms & w' & Hd & Hw' & Hb1 & Hb2).
      unfold mbind, M_bind. rewrite Hd.
      eexists _, _. split; [reflexivity|]. split; [done|]. split.
      * intros _. destruct (decide (Book ∈ rs)) as [Hin|Hin]; [auto|].
        rewrite (Hb2 Hin). done.
      * intros Hn. exfalso. apply Hn. left.
    + destruct (requestCancel_phase w Hw) as (m & w1 & -> & Hw1 & Hd1).
      destruct (IH w1 Hw1) as (ms & w' & Hd & Hw' & Hb1 & Hb2).
      unfold mbind, M_bind. rewrite Hd.
      eexists _, _. split; [reflexivity|]. split; [done|]. split.
      * intros [?|Hin]%elem_of_cons; [done | auto].
      * intros Hn. rewrite <- Hd1. apply Hb2. intros Hin. apply Hn. now right.
    + destruct (elapse_phase ms w Hw) as (w1 & -> & Hw1 & Hd1).
      destruct (IH w1 Hw1) as (ms' & w' & Hd & Hw' & Hb1 & Hb2).
      rewrite Hd.
      eexists _, _. split; [reflexivity|]. split; [done|]. split.
      * intros [?|Hin]%elem_of_cons; [done | auto].
      * intros Hn. rewrite <- Hd1. apply Hb2. intros Hin. apply Hn. now right.
Qed.

Lemma session_phase (rs : list request) :
  exists ms w, session' rs empty_world = Some (0, ms, w) /\ phase w
               /\ booked_once rs 0 (draws w).
Proof.
  unfold session, mbind at 1, M_bind.
  rewrite new_Context_phase.
  destruct (drive_phase rs
              {| now := 0; heap := [OpenState 0];
                 contexts := [{| currentState := 0 |}];
                 timers := []; draws := 0 |})
    as (ms & w & Hd & Hw & Hb).
  { now apply (phase_Open _ 0). }
  unfold mbind, M_bind. rewrite Hd. now exists ms, w.
Qed.

End Sessions.

(** ** What one call can do to the store *)

Lemma transition_active (w w' : world) (c : cref) (s : AbstractState) :
  c < length (contexts w) ->
  heap w' = heap w ++ [s] ->
  contexts w' = <[c := {| currentState := length (heap w) |}]> (contexts w) ->
  active c w' = Some (length (heap w), w')
  /\ heap w !! length (heap w) = None
  /\ heap w' !! length (heap w) = Some s.
Proof.
  intros Hc Eh Ec. split; [|split].
  - apply active_Some. rewrite Ec. now apply list_lookup_insert_eq.
  - now apply lookup_ge_None_2.
  - rewrite Eh. apply lookup_fresh.
Qed.

Lemma setCurrentState_None (w : world) (c : cref) (s : ref) :
  ~ c < length (contexts w) -> setCurrentState c s w = None.
Proof. intros H. unfold setCurrentState. now rewrite decide_False. Qed.

Section Transitions.

Variable Math_random : nat -> float.
Variable Number_toString : float -> string.

Lemma book_transition (w w' : world) (this : ref) (m : string) :
  book Math_random Number_toString this w = Some (m, w') ->
  exists c, acts_for w this c /\ transition c w w'
            /\ (draws w' = draws w
                \/ heap w !! this = Some (OpenState c) /\ draws w' = S (draws w)).
Proof.
  intros H. destruct (heap w !! this) as [s|] eqn:Hs.
  2: { unfold book, mbind, M_bind, deref in H. now rewrite Hs in H. }
  destruct s as [oldID c|c|id c|].
  - exists c. split; [eexists; split; [exact Hs | done]|].
    destruct (decide (c < length (contexts w))) as [Hc|Hc].
    + rewrite (book_CancelledState _ _ _ _ _ _ Hs Hc) in H.
      injection H as _ <-. split; [|now left].
      now apply (install _ _ _ PendingState).
    + exfalso. revert H. unfold book, mbind at 1, M_bind.
      rewrite (deref_Some _ _ _ Hs). exec.
      now rewrite setCurrentState_None.
  - exists c. split; [eexists; split; [exact Hs | done]|].
    destruct (decide (c < length (contexts w))) as [Hc|Hc].
    + rewrite (book_OpenState _ _ _ _ _ Hs Hc) in H.
      injection H as _ <-. split; [|now right].
      now apply (install _ _ _ PendingState).
    + exfalso. revert H. unfold book, mbind at 1, M_bind.
      rewrite (deref_Some _ _ _ Hs). exec.
      now rewrite setCurrentState_None.
  - exists c. split; [eexists; split; [exact Hs | done]|].
    rewrite (book_BookedState _ _ _ _ _ _ Hs) in H.
    injection H as _ <-. split; [now apply stay | now left].
  - exists 0. split; [eexists; split; [exact Hs | done]|].
    rewrite (book_PendingState _ _ _ _ Hs) in H.
    injection H as _ <-. split; [now apply stay | now left].
Qed.

Lemma cancel_transition (w w' : world) (this : ref) (m : string) :
  cancel this w = Some (m, w') ->
  exists c, acts_for w this c /\ transition c w w' /\ draws w' = draws w.
Proof.
  intros H. destruct (heap w !! this) as [s|] eqn:Hs.
  2: { unfold cancel, mbind, M_bind, deref in H. now rewrite Hs in H. }
  destruct s as [oldID c|c|id c|].
  - exists c. split; [eexists; split; [exact Hs | done]|].
    rewrite (cancel_CancelledState _ _ _ _ Hs) in H.
    injection H as _ <-. split; [now apply stay | done].
  - exists c. split; [eexists; split; [exact Hs | done]|].
    rewrite (cancel_OpenState _ _ _ Hs) in H.
    injection H as _ <-. split; [now apply stay | done].
  - exists c. split; [eexists; split; [exact Hs | done]|].
    destruct (decide (c < length (contexts w))) as [Hc|Hc].
    + rewrite (cancel_BookedState _ _ _ _ Hs Hc) in H.
      injection H as _ <-. split; [|done].
      now apply (install _ _ _ (CancelledState id c)).
    + exfalso. revert H. unfold cancel, mbind at 1, M_bind.
      rewrite (deref_Some _ _ _ Hs). exec.
      now rewrite setCurrentState_None.
  - exists 0. split; [eexists; split; [exact Hs | done]|].
    rewrite (cancel_PendingState _ _ Hs) in H.
    injection H as _ <-. split; [now apply stay | done].
Qed.

Lemma run_callback_transition (w w' : world) (t : timeout) :
  run_callback t w = Some (tt, w') ->
  transition (cb_context t) w w' /\ draws w' = draws w.
Proof.
  intros H. destruct (decide (cb_context t < length (contexts w))) as [Hc|Hc].
  - rewrite (run_callback_run _ _ Hc) in H. injection H as <-. split; [|done].
    now apply (install _ _ _ (BookedState undefined (cb_context t))).
  - exfalso. revert H. exec. now rewrite setCurrentState_None.
Qed.

End Transitions.

Lemma run_callbacks_app (ts1 ts2 : list timeout) (w : world) :
  run_callbacks (ts1 ++ ts2) w = (run_callbacks ts1;; run_callbacks ts2) w.
Proof.
  revert w. induction ts1 as [|t ts1 IH]; intros w; [done|].
  simpl. unfold mbind, M_bind in *.
  destruct (run_callback t w) as [[[] w1]|]; [apply IH | done].
Qed.

(** Running callbacks only adds objects to the heap. *)
Lemma run_callbacks_heap (ts : list timeout) (w w' : world) :
  run_callbacks ts w = Some (tt, w') -> exists l, heap w' = heap w ++ l.
Proof.
  revert w. induction ts as [|t ts IH]; intros w.
  - intros [= <-]. exists []. now rewrite app_nil_r.
  - simpl. unfold mbind, M_bind.
    destruct (run_callback t w) as [[[] w1]|] eqn:E; [|done].
    intros [l Hl]%IH.
    destruct (run_callback_transition _ _ _ E) as [[->|s _ Eh _ _] _].
    + now exists l.
    + exists ([s] ++ l). now rewrite Hl, Eh, <- app_assoc.
Qed.

(** Running callbacks registers no timeout and cancels none. *)
Lemma run_callbacks_timers (ts : list timeout) (w w' : world) :
  run_callbacks ts w = Some (tt, w') -> timers w' = timers w.
Proof.
  revert w. induction ts as [|t ts IH]; intros w.
  - now intros [= <-].
  - simpl. unfold mbind, M_bind.
    destruct (run_callback t w) as [[[] w1]|] eqn:E; [|done].
    intros ->%IH.
    destruct (decide (cb_context t < length (contexts w))) as [Hc|Hc].
    + rewrite (run_callback_run _ _ Hc) in E. now injection E as <-.
    + exfalso. revert E. exec. now rewrite setCurrentState_None.
Qed.

Lemma elapse_timers (ms : N) (w w' : world) :
  elapse ms w = Some (tt, w') -> timers w' = later (now w + ms) (timers w).
Proof. unfold elapse. now intros ->%run_callbacks_timers. Qed.

(** A timeout that is not yet due stays in the queue. *)
Lemma later_keeps (until : N) (t : timeout) (q : list timeout) :
  t ∈ q -> (until < due t)%N -> t ∈ later until q.
Proof.
  intros Hin Hlt. induction q as [|t' q IH]; [done|]. simpl.
  destruct (due t' <=? until)%N eqn:E; [|done].
  apply elem_of_cons in Hin as [->|Hin]; [|now apply IH].
  apply N.leb_le in E. lia.
Qed.

Lemma wf_new_PendingState (id : value) (c : cref) (w : world) :
  wf w -> c < length (contexts w) ->
  wf {| now := now w; heap := heap w ++ [PendingState]; contexts := contexts w;
        timers := enqueue {| due := now w + BOOKING_DELAY; cb_id := id;
                             cb_context := c |} (timers w);
        draws := draws w |}.
Proof.
  intros [Hh Hc Ht] Hlt. split; simpl.
  - apply Forall_app. split; [done|]. apply Forall_singleton. now intros c' [=].
  - rewrite length_app. eapply Forall_impl; [exact Hc|]. simpl. intros; lia.
  - now apply Forall_enqueue.
Qed.

(** ** The sample stores *)

Lemma wf_w_open : wf w_open.
Proof.
  split; simpl.
  - apply Forall_singleton. intros c [= <-]. lia.
  - apply Forall_singleton. simpl. lia.
  - constructor.
Qed.

(** * The claims *)

(** C1 (the code loses the identifier).  A context is created; [book()]
    draws the identifier [Math.random() * 100]; after [BOOKING_DELAY] the
    booking is completed; [cancel()] and then [book()] follow.  The
    [BookedState] and the [CancelledState] that were installed hold
    [undefined], the rebooking answers "Rebooked using old ID: undefined" and
    the new completion timeout carries [undefined]: none of them holds the
    identifier that was drawn.  In every session the active [BookedState] or
    [CancelledState] holds [undefined]. *)
Theorem booking_id_is_lost_in_BookedState Math_random Number_toString :
  session Math_random Number_toString
          [Book; Wait BOOKING_DELAY; Cancel; Book] empty_world
  = Some (0,
          [("Event booked with id: "
              ++ Number_toString (Math_random 0%nat * 100)%float)%string;
           "Event cancelled";
           "Rebooked using old ID: undefined"],
          {| now := 10000;
             heap := [OpenState 0; PendingState; BookedState undefined 0;
                      CancelledState undefined 0; PendingState];
             contexts := [{| currentState := 4 |}];
             timers := [{| due := 20000; cb_id := undefined; cb_context := 0 |}];
             draws := 1 |})
  /\ undefined <> number (Math_random 0%nat * 100)%float
  /\ (forall rs,
        exists ms w s x,
          session Math_random Number_toString rs empty_world = Some (0, ms, w)
          /\ contexts w = [{| currentState := s |}]
          /\ heap w !! s = Some x
          /\ (x = OpenState 0 \/ x = PendingState
              \/ x = BookedState undefined 0 \/ x = CancelledState undefined 0)).
Proof.
  split; [reflexivity|]. split; [discriminate|].
  intros rs.
  destruct (session_phase Math_random Number_toString rs) as (ms & w & Hs & Hp & _).
  destruct Hp as [s Hc Hh Ht Hd|s t Hc Hh Ht Hct Hd|s Hc Hh Ht Hd|s Hc Hh Ht Hd];
    exists ms, w, s; eexists; (split; [exact Hs|]); (split; [exact Hc|]);
    (split; [exact Hh|]); tauto.
Qed.

(** C2 (as the spec states it, refuted).  A context is created, a
    [PendingState] (object 1) is made its state, and then a [CancelledState]
    (object 2) replaces it.  When the timeout of object 1 falls due, the
    active state, which was object 2, becomes a new [BookedState] (object 3):
    the callback is not a no-op. *)
Lemma stale_completion_overwrites_newer_state :
  fst <$> (c ← new_Context;
           p ← new_PendingState (number 7) c;
           setCurrentState c p;;
           x ← new_CancelledState (number 7) c;
           setCurrentState c x;;
           before ← active c;
           elapse BOOKING_DELAY;;
           after ← active c;
           s ← deref after;
           mret (p, x, before, after, s)) empty_world
  = Some (1, 2, 2, 3, BookedState undefined 0).
Proof. reflexivity. Qed.

(** C2 (amended).  The completion callback makes no check of the context's
    current state: whenever it runs it allocates a [BookedState] and makes it
    the current state of its context, whatever that state was.  In a session,
    where the handlers are reached through the active state only, a timeout
    is queued only while the active state is a [PendingState], so that the
    callback always replaces a [PendingState]. *)
Theorem completion_is_not_guarded :
  (forall t w,
     cb_context t < length (contexts w) ->
     run_callback t w =
       Some (tt,
             {| now := now w;
                heap := heap w ++ [BookedState undefined (cb_context t)];
                contexts := <[cb_context t := {| currentState := length (heap w) |}]>
                              (contexts w);
                timers := timers w;
                draws := draws w |}))
  /\ (forall Math_random Number_toString rs,
        exists ms w,
          session Math_random Number_toString rs empty_world = Some (0, ms, w)
          /\ (timers w = [] \/
               exists s t, contexts w = [{| currentState := s |}]
                           /\ heap w !! s = Some PendingState
                           /\ timers w = [t] /\ cb_context t = 0)).
Proof.
  split; [exact run_callback_run|].
  intros MR NT rs. destruct (session_phase MR NT rs) as (ms & w & Hs & Hp & _).
  exists ms, w. split; [done|].
  destruct Hp as [s Hc Hh Ht Hd|s t Hc Hh Ht Hct Hd|s Hc Hh Ht Hd|s Hc Hh Ht Hd];
    [now left | right | now left | now left].
  now exists s, t.
Qed.

Lemma completion_is_not_guarded_witness :
  cb_context {| due := 10000; cb_id := number 50; cb_context := 0 |}
    < length (contexts w_cancelled)
  /\ run_callback {| due := 10000; cb_id := number 50; cb_context := 0 |} w_cancelled =
      Some (tt,
            {| now := 10000;
               heap := [OpenState 0; PendingState; BookedState undefined 0;
                        CancelledState undefined 0; BookedState undefined 0];
               contexts := [{| currentState := 4 |}];
               timers := []; draws := 1 |}).
Proof.
  split; [simpl; lia|].
  apply (proj1 completion_is_not_guarded
           {| due := 10000; cb_id := number 50; cb_context := 0 |} w_cancelled).
  simpl; lia.
Defined.

(** C3 (as the spec states it, refuted).  No public method of [Context] is
    called [requestAction] or [requestCancel], and none returns a string. *)
Lemma Context_has_no_request_methods :
  Forall (fun m => name m <> "requestAction" /\ name m <> "requestCancel"
                   /\ returns m <> ts_string)
         Context_public_methods.
Proof. repeat constructor; discriminate. Qed.

(** C3 (amended).  [Context] has one public method, [setCurrentState], which
    makes its argument the active state; [cancel] and [book] are the methods
    of the state objects.  A call of [book()] or [cancel()] on a state object
    of a well-formed store returns, and when it makes a transition the new
    state object, allocated by the call, is the active state of the object's
    context when the call returns. *)
Theorem Context_setCurrentState_only :
  map name Context_public_methods = ["setCurrentState"]
  /\ map name AbstractState_methods = ["cancel"; "book"]
  /\ (forall w c s, c < length (contexts w) ->
        exists w', setCurrentState c s w = Some (tt, w')
                   /\ active c w' = Some (s, w'))
  /\ (forall Math_random Number_toString w this,
        wf w -> this < length (heap w) ->
        exists m w' c,
          book Math_random Number_toString this w = Some (m, w')
          /\ acts_for w this c
          /\ (w' = w \/
               exists n, active c w' = Some (n, w')
                         /\ heap w !! n = None /\ is_Some (heap w' !! n)))
  /\ (forall w this,
        wf w -> this < length (heap w) ->
        exists m w' c,
          cancel this w = Some (m, w')
          /\ acts_for w this c
          /\ (w' = w \/
               exists n, active c w' = Some (n, w')
                         /\ heap w !! n = None /\ is_Some (heap w' !! n))).
Proof.
  split; [reflexivity|]. split; [reflexivity|]. split; [|split].
  - intros w c s Hc. rewrite setCurrentState_Some by done.
    eexists. split; [reflexivity|].
    apply active_Some. simpl. now apply list_lookup_insert_eq.
  - intros MR NT w this Hwf Hlt.
    destruct (book_wf MR NT w this Hwf Hlt) as (m & w' & Hb & _).
    destruct (book_transition _ _ _ _ _ _ Hb) as (c & Hc & Ht & _).
    exists m, w', c. split; [done|]. split; [done|].
    destruct Ht as [->|s Hlc Eh Ec _]; [now left|right].
    destruct (transition_active w w' c s Hlc Eh Ec) as (Ha & Hn & Hs).
    exists (length (heap w)). split; [exact Ha|]. split; [exact Hn|].
    now exists s.
  - intros w this Hwf Hlt.
    destruct (cancel_wf w this Hwf Hlt) as (m & w' & Hb & _).
    destruct (cancel_transition _ _ _ _ Hb) as (c & Hc & Ht & _).
    exists m, w', c. split; [done|]. split; [done|].
    destruct Ht as [->|s Hlc Eh Ec _]; [now left|right].
    destruct (transition_active w w' c s Hlc Eh Ec) as (Ha & Hn & Hs).
    exists (length (heap w)). split; [exact Ha|]. split; [exact Hn|].
    now exists s.
Qed.

Lemma Context_setCurrentState_only_witness :
  exists m w',
    book half fifty 0 w_open = Some (m, w')
    /\ active 0 w' = Some (1, w')
    /\ heap w_open !! 1 = None /\ heap w' !! 1 = Some PendingState.
Proof.
  destruct Context_setCurrentState_only as (_ & _ & _ & Hbook & _).
  destruct (Hbook half fifty w_open 0) as (m & w' & c & Hb & _ & _).
  - exact wf_w_open.
  - simpl. lia.
  - exists m, w'. vm_compute in Hb. injection Hb as <- <-.
    repeat split; reflexivity.
Defined.

(** C4 (the completed booking does not carry the identifier).  Constructing
    a [PendingState] in a well-formed store queues one timeout, due
    [BOOKING_DELAY] later, which is still queued after any shorter time.
    When [BOOKING_DELAY] has passed, with no call in between, the context's
    state is a [BookedState] allocated by the callback through
    [setCurrentState]; its [id] field is [undefined], whatever identifier
    the [PendingState] was constructed with. *)
Theorem PendingState_completes_without_id (id : value) (c : cref) (w : world) :
  wf w -> c < length (contexts w) ->
  exists w1 w2 b,
    new_PendingState id c w = Some (length (heap w), w1)
    /\ timers w1 = enqueue {| due := now w + BOOKING_DELAY; cb_id := id;
                              cb_context := c |} (timers w)
    /\ (forall ms, (ms < BOOKING_DELAY)%N ->
          exists w', elapse ms w1 = Some (tt, w')
                     /\ {| due := now w + BOOKING_DELAY; cb_id := id;
                           cb_context := c |} ∈ timers w')
    /\ elapse BOOKING_DELAY w1 = Some (tt, w2)
    /\ contexts w2 !! c = Some {| currentState := b |}
    /\ heap w1 !! b = None
    /\ heap w2 !! b = Some (BookedState undefined c).
Proof.
  intros Hwf Hc.
  set (t := {| due := now w + BOOKING_DELAY; cb_id := id; cb_context := c |}).
  set (w0 := {| now := now w + BOOKING_DELAY; heap := heap w ++ [PendingState];
                contexts := contexts w;
                timers := later (now w + BOOKING_DELAY) (timers w);
                draws := draws w |}).
  pose proof (wf_timers _ Hwf) as Ht.
  rewrite <- (ready_later (now w + BOOKING_DELAY) (timers w)) in Ht.
  apply Forall_app in Ht as [Hr Hl].
  assert (Hwf0 : wf w0).
  { split; simpl.
    - apply Forall_app. split; [apply Hwf|]. apply Forall_singleton. now intros c' [=].
    - rewrite length_app. eapply Forall_impl; [apply Hwf|]. simpl. intros; lia.
    - exact Hl. }
  destruct (run_callbacks_wf (ready (now w + BOOKING_DELAY) (timers w)) w0 Hwf0 Hr)
    as (w' & Hrun & Hwf' & El).
  destruct (run_callbacks_heap _ _ _ Hrun) as [l Eh].
  eexists _, _, (length (heap w')). split; [apply new_PendingState_run|].
  split; [reflexivity|]. split; [|split; [|split; [|split]]].
  - intros ms Hms.
    destruct (elapse_wf ms _ (wf_new_PendingState id c w Hwf Hc)) as (w2 & He & _).
    exists w2. split; [exact He|].
    rewrite (elapse_timers _ _ _ He). simpl.
    apply later_keeps; [apply elem_of_enqueue; now left | simpl; lia].
  - unfold elapse. cbn [now heap contexts timers draws].
    change (now w + BOOKING_DELAY)%N with (due t).
    rewrite ready_enqueue, later_enqueue, run_callbacks_app.
    unfold mbind, M_bind. subst t. cbn [due]. fold w0. rewrite Hrun.
    simpl. unfold mbind, M_bind.
    rewrite run_callback_run by (simpl; rewrite El; exact Hc).
    reflexivity.
  - simpl. apply list_lookup_insert_eq. now rewrite El.
  - simpl. apply lookup_ge_None_2. rewrite Eh. simpl. rewrite !length_app. lia.
  - simpl. apply lookup_fresh.
Qed.

Lemma PendingState_completes_without_id_witness :
  wf w_open /\ 0 < length (contexts w_open)
  /\ exists w1 w2,
       new_PendingState (number 50) 0 w_open = Some (1, w1)
       /\ elapse BOOKING_DELAY w1 = Some (tt, w2)
       /\ contexts w2 !! 0 = Some {| currentState := 2 |}
       /\ heap w2 !! 2 = Some (BookedState undefined 0).
Proof.
  split; [exact wf_w_open|]. split; [simpl; lia|].
  destruct (PendingState_completes_without_id (number 50) 0 w_open wf_w_open)
    as (w1 & w2 & b & Hnew & _ & _ & Hel & _); [simpl; lia|].
  exists w1, w2. split; [exact Hnew|]. split; [exact Hel|].
  vm_compute in Hnew. injection Hnew as <-.
  vm_compute in Hel. injection Hel as <-.
  split; reflexivity.
Defined.

(** C5.  When the active state of a context is an [OpenState], its [book()]
    draws a new identifier [Math.random() * 100], constructs a
    [PendingState] from it, which registers the completion timeout
    [BOOKING_DELAY] from now with that identifier, makes the new object
    the context's state, and returns "Event booked with id: " followed by
    the identifier. *)
Theorem OpenState_book Math_random Number_toString (w : world) (c : cref) (this : ref) :
  contexts w !! c = Some {| currentState := this |} ->
  heap w !! this = Some (OpenState c) ->
  let id := number (Math_random (draws w) * 100)%float in
  book Math_random Number_toString this w =
    Some (("Event booked with id: " ++ ToString Number_toString id)%string,
          {| now := now w;
             heap := heap w ++ [PendingState];
             contexts := <[c := {| currentState := length (heap w) |}]> (contexts w);
             timers := enqueue {| due := now w + BOOKING_DELAY;
                                  cb_id := id; cb_context := c |} (timers w);
             draws := S (draws w) |}).
Proof.
  intros Hc Hthis. simpl. apply book_OpenState; [done|].
  eapply lookup_lt_Some, Hc.
Qed.

Lemma OpenState_book_witness :
  contexts w_open !! 0 = Some {| currentState := 0 |}
  /\ heap w_open !! 0 = Some (OpenState 0)
  /\ book half fifty 0 w_open = Some ("Event booked with id: 50", w_pending).
Proof.
  split; [reflexivity|]. split; [reflexivity|].
  apply (OpenState_book half fifty w_open 0 0); reflexivity.
Defined.

(** C6.  The [book()] and [cancel()] of a [PendingState] return "Please
    wait for booking to load before performing an action!" and leave the
    whole store as it was: the context's state, the queue of timeouts and
    the clock.  The completion timeout therefore runs as if the call had
    not been made. *)
Theorem PendingState_book_cancel Math_random Number_toString (w : world) (this : ref) :
  heap w !! this = Some PendingState ->
  book Math_random Number_toString this w
    = Some ("Please wait for booking to load before performing an action!", w)
  /\ cancel this w
    = Some ("Please wait for booking to load before performing an action!", w)
  /\ (forall ms, (book Math_random Number_toString this;; elapse ms) w = elapse ms w)
  /\ (forall ms, (cancel this;; elapse ms) w = elapse ms w).
Proof.
  intros Hthis.
  pose proof (book_PendingState Math_random Number_toString w this Hthis) as Hb.
  pose proof (cancel_PendingState w this Hthis) as Hc.
  repeat split; try done; intros ms; unfold mbind, M_bind.
  - now rewrite Hb.
  - now rewrite Hc.
Qed.

Lemma PendingState_book_cancel_witness :
  heap w_pending !! 1 = Some PendingState
  /\ book half fifty 1 w_pending
      = Some ("Please wait for booking to load before performing an action!", w_pending)
  /\ cancel 1 w_pending
      = Some ("Please wait for booking to load before performing an action!", w_pending).
Proof.
  split; [reflexivity|].
  destruct (PendingState_book_cancel half fifty w_pending 1) as (Hb & Hc & _);
    [reflexivity|].
  split; [exact Hb | exact Hc].
Defined.

(** C7.  When the active state of a context is a [CancelledState], its
    [book()] constructs a [PendingState] from the stored [oldID], which
    registers a new completion timeout with that identifier, makes it the
    context's state and returns "Rebooked using old ID: " followed by the
    stored identifier; its [cancel()] returns "You've already cancelled
    this!" and leaves the store as it was. *)
Theorem CancelledState_book_cancel Math_random Number_toString (w : world) (c : cref) (this : ref) (oldID : value) :
  contexts w !! c = Some {| currentState := this |} ->
  heap w !! this = Some (CancelledState oldID c) ->
  book Math_random Number_toString this w =
    Some (("Rebooked using old ID: " ++ ToString Number_toString oldID)%string,
          {| now := now w;
             heap := heap w ++ [PendingState];
             contexts := <[c := {| currentState := length (heap w) |}]> (contexts w);
             timers := enqueue {| due := now w + BOOKING_DELAY;
                                  cb_id := oldID; cb_context := c |} (timers w);
             draws := draws w |})
  /\ cancel this w = Some ("You've already cancelled this!", w).
Proof.
  intros Hc Hthis. split.
  - apply book_CancelledState; [done|]. eapply lookup_lt_Some, Hc.
  - eapply cancel_CancelledState, Hthis.
Qed.

Lemma CancelledState_book_cancel_witness :
  contexts w_cancelled !! 0 = Some {| currentState := 3 |}
  /\ heap w_cancelled !! 3 = Some (CancelledState undefined 0)
  /\ book half fifty 3 w_cancelled =
      Some ("Rebooked using old ID: undefined",
            {| now := 10000;
               heap := [OpenState 0; PendingState; BookedState undefined 0;
                        CancelledState undefined 0; PendingState];
               contexts := [{| currentState := 4 |}];
               timers := [{| due := 20000; cb_id := undefined; cb_context := 0 |}];
               draws := 1 |})
  /\ cancel 3 w_cancelled = Some ("You've already cancelled this!", w_cancelled).
Proof.
  split; [reflexivity|]. split; [reflexivity|].
  apply (CancelledState_book_cancel half fifty w_cancelled 0 3 undefined);
    reflexivity.
Defined.

(** C8 (as the spec states it, refuted).  The constructor of [PendingState]
    takes an identifier and a context and nothing else, and no construction,
    in any store, registers its timeout at another distance than 10000 ms:
    the delay does not vary with any input. *)
Lemma BOOKING_DELAY_is_not_tunable :
  map fst PendingState_constructor_params = ["id"; "context"]
  /\ ~ (exists id c w p w' t,
          new_PendingState id c w = Some (p, w')
          /\ (t ∈ timers w') /\ (t ∉ timers w)
          /\ due t <> (now w + 10000)%N).
Proof.
  split; [reflexivity|].
  intros (id & c & w & p & w' & t & Hnew & Hin & Hout & Hdue).
  rewrite new_PendingState_run in Hnew. injection Hnew as _ <-.
  simpl in Hin. apply elem_of_enqueue in Hin as [->|Hin]; [|done].
  now apply Hdue.
Qed.

(** C8 (amended).  The delay is the constant [BOOKING_DELAY] = 10000 ms of
    [PendingState]: every construction, whatever its arguments and the store,
    succeeds and queues exactly one timeout, due 10000 ms after the time of
    construction. *)
Theorem PendingState_delay_is_constant (id : value) (c : cref) (w : world) :
  BOOKING_DELAY = 10000%N
  /\ exists p w',
       new_PendingState id c w = Some (p, w')
       /\ timers w' = enqueue {| due := now w + 10000; cb_id := id; cb_context := c |}
                             (timers w).
Proof.
  split; [reflexivity|]. eexists _, _. split; [apply new_PendingState_run|].
  reflexivity.
Qed.

(** C9.  No call throws.  Every session runs to its end and answers each
    request; from any well-formed store every sequence of requests on an
    existing context, every [book()] and [cancel()] on an existing state
    object, [new Context()] and [setCurrentState] on an existing context
    return.  The actions that a state does not allow return their message
    and leave the store as it was. *)
Theorem no_operation_throws :
  (forall Math_random Number_toString rs,
     exists c ms w,
       session Math_random Number_toString rs empty_world = Some (c, ms, w)
       /\ wf w)
  /\ (forall Math_random Number_toString w c rs,
        wf w -> c < length (contexts w) ->
        exists ms w', drive Math_random Number_toString c rs w = Some (ms, w')
                      /\ wf w')
  /\ (forall Math_random Number_toString w this,
        wf w -> this < length (heap w) ->
        (exists m w', book Math_random Number_toString this w = Some (m, w') /\ wf w')
        /\ (exists m w', cancel this w = Some (m, w') /\ wf w'))
  /\ (forall w, wf w -> exists c w', new_Context w = Some (c, w') /\ wf w')
  /\ (forall w c s, c < length (contexts w) ->
        exists w', setCurrentState c s w = Some (tt, w'))
  /\ (forall w ms, wf w -> exists w', elapse ms w = Some (tt, w') /\ wf w')
  /\ (forall w this c,
        heap w !! this = Some (OpenState c) ->
        cancel this w = Some ("You haven't booked anything yet", w))
  /\ (forall Math_random Number_toString w this id c,
        heap w !! this = Some (BookedState id c) ->
        book Math_random Number_toString this w
          = Some ("You've already booked this event!", w))
  /\ (forall Math_random Number_toString w this,
        heap w !! this = Some PendingState ->
        book Math_random Number_toString this w
          = Some ("Please wait for booking to load before performing an action!", w)
        /\ cancel this w
          = Some ("Please wait for booking to load before performing an action!", w))
  /\ (forall w this oldID c,
        heap w !! this = Some (CancelledState oldID c) ->
        cancel this w = Some ("You've already cancelled this!", w)).
Proof.
  repeat apply conj.
  - intros MR NT rs. unfold session, mbind at 1, M_bind.
    destruct (new_Context_wf empty_world wf_empty_world) as (w0 & -> & Hwf0 & El).
    destruct (drive_wf MR NT (length (contexts empty_world)) rs w0 Hwf0)
      as (ms & w & Hd & Hwf & _); [rewrite El; simpl; lia|].
    unfold mbind, M_bind. rewrite Hd. now exists 0, ms, w.
  - intros MR NT w c rs Hwf Hc.
    destruct (drive_wf MR NT c rs w Hwf Hc) as (ms & w' & Hd & Hwf' & _).
    now exists ms, w'.
  - intros MR NT w this Hwf Hlt. split.
    + destruct (book_wf MR NT w this) as (m & w' & Hb & Hwf' & _);
        [done..|]. now exists m, w'.
    + destruct (cancel_wf w this) as (m & w' & Hb & Hwf' & _); [done..|].
      now exists m, w'.
  - intros w Hwf. destruct (new_Context_wf w Hwf) as (w' & Hn & Hwf' & _).
    now exists (length (contexts w)), w'.
  - intros w c s Hc. rewrite setCurrentState_Some by done. now eexists.
  - intros w ms Hwf. destruct (elapse_wf ms w Hwf) as (w' & He & Hwf' & _).
    now exists w'.
  - exact cancel_OpenState.
  - exact book_BookedState.
  - intros MR NT w this Hs. split;
      [now apply book_PendingState | now apply cancel_PendingState].
  - exact cancel_CancelledState.
Qed.

Lemma no_operation_throws_witness :
  heap w_open !! 0 = Some (OpenState 0)
  /\ cancel 0 w_open = Some ("You haven't booked anything yet", w_open).
Proof.
  split; [reflexivity|].
  destruct no_operation_throws as (_ & _ & _ & _ & _ & _ & Hopen & _).
  apply (Hopen w_open 0 0). reflexivity.
Defined.

(** * The workflow of one context among others *)

(** ** The queue in due order *)

Lemma enqueue_in_order (t : timeout) (q : list timeout) :
  in_order q -> in_order (enqueue t q).
Proof.
  unfold in_order. induction q as [|t' q IH]; simpl; intros Hq.
  - repeat constructor.
  - apply StronglySorted_cons in Hq as [Hall Hq].
    destruct (due t' <=? due t)%N eqn:E.
    + apply StronglySorted_cons. split; [|now apply IH].
      apply Forall_enqueue; [now apply N.leb_le | done].
    + apply N.leb_gt in E. apply StronglySorted_cons. split.
      * constructor; [lia|]. eapply Forall_impl; [exact Hall|].
        simpl. intros; lia.
      * now apply StronglySorted_cons.
Qed.

Lemma later_in_order (until : N) (q : list timeout) :
  in_order q -> in_order (later until q).
Proof.
  unfold in_order. induction q as [|t q IH]; simpl; [done|]. intros Hq.
  destruct (due t <=? until)%N; [|done].
  apply IH. now apply StronglySorted_cons in Hq as [_ Hq].
Qed.

Lemma filter_none (P : timeout -> Prop) `{!forall t, Decision (P t)}
    (q : list timeout) :
  Forall (fun t => ~ P t) q -> filter P q = [].
Proof.
  induction 1 as [|t q Ht _ IH]; [done|]. now rewrite filter_cons_False.
Qed.

Lemma filter_all (P : timeout -> Prop) `{!forall t, Decision (P t)}
    (q : list timeout) :
  Forall P q -> filter P q = q.
Proof.
  induction 1 as [|t q Ht _ IH]; [done|]. rewrite filter_cons_True by done.
  now rewrite IH.
Qed.

(** In a queue in due order, the timeouts that run are all those that are
    due, and those that stay are all those that are not. *)
Lemma ready_in_order (until : N) (q : list timeout) :
  in_order q -> ready until q = filter (fun t => (due t <= until)%N) q.
Proof.
  unfold in_order. induction q as [|t q IH]; simpl; [done|]. intros Hq.
  apply StronglySorted_cons in Hq as [Hall Hq].
  destruct (due t <=? until)%N eqn:E.
  - apply N.leb_le in E. rewrite filter_cons_True by done. now rewrite IH.
  - apply N.leb_gt in E. rewrite filter_cons_False by lia.
    symmetry. apply filter_none.
    eapply Forall_impl; [exact Hall|]. simpl. intros; lia.
Qed.

Lemma later_in_order_filter (until : N) (q : list timeout) :
  in_order q -> later until q = filter (fun t => (until < due t)%N) q.
Proof.
  unfold in_order. induction q as [|t q IH]; simpl; [done|]. intros Hq.
  apply StronglySorted_cons in Hq as [Hall Hq].
  destruct (due t <=? until)%N eqn:E.
  - apply N.leb_le in E. rewrite filter_cons_False by lia. now apply IH.
  - apply N.leb_gt in E. rewrite filter_cons_True by done. f_equal.
    symmetry. apply filter_all.
    eapply Forall_impl; [exact Hall|]. simpl. intros; lia.
Qed.

Lemma filter_swap (P Q : timeout -> Prop)
    `{!forall t, Decision (P t)} `{!forall t, Decision (Q t)} (q : list timeout) :
  filter P (filter Q q) = filter Q (filter P q).
Proof.
  rewrite !list_filter_filter. apply list_filter_iff. tauto.
Qed.

Lemma own_enqueue (c : cref) (t : timeout) (q : list timeout) :
  cb_context t = c ->
  filter (fun t' => cb_context t' = c) q = [] ->
  filter (fun t' => cb_context t' = c) (enqueue t q) = [t].
Proof.
  intros Ht. induction q as [|t' q IH]; simpl; intros Hq.
  - now rewrite filter_cons_True.
  - destruct (decide (cb_context t' = c)) as [Hc|Hc].
    { now rewrite filter_cons_True in Hq. }
    rewrite filter_cons_False in Hq by done.
    destruct (due t' <=? due t)%N.
    + rewrite filter_cons_False by done. now apply IH.
    + rewrite filter_cons_True, filter_cons_False by done. now rewrite Hq.
Qed.

(** ** Callbacks of other contexts *)

Lemma run_callbacks_clock (ts : list timeout) (w w' : world) :
  run_callbacks ts w = Some (tt, w') -> now w' = now w /\ draws w' = draws w.
Proof.
  revert w. induction ts as [|t ts IH]; intros w.
  - now intros [= <-].
  - simpl. unfold mbind, M_bind.
    destruct (run_callback t w) as [[[] w1]|] eqn:E; [|done].
    intros [-> ->]%IH.
    destruct (decide (cb_context t < length (contexts w))) as [Hc|Hc].
    + rewrite (run_callback_run _ _ Hc) in E. now injection E as <-.
    + exfalso. revert E. exec. now rewrite setCurrentState_None.
Qed.

Lemma run_callbacks_foreign (c : cref) (ts : list timeout) (w w' : world) :
  run_callbacks ts w = Some (tt, w') ->
  filter (fun t => cb_context t = c) ts = [] ->
  contexts w' !! c = contexts w !! c.
Proof.
  revert w. induction ts as [|t ts IH]; intros w.
  - now intros [= <-].
  - simpl. unfold mbind, M_bind.
    destruct (run_callback t w) as [[[] w1]|] eqn:E; [|done].
    intros Hrun Hown.
    destruct (decide (cb_context t = c)) as [Ht|Ht].
    { now rewrite filter_cons_True in Hown. }
    rewrite filter_cons_False in Hown by done.
    rewrite (IH _ Hrun Hown).
    destruct (run_callback_transition _ _ _ E) as [[->|s _ _ -> _] _]; [done|].
    now apply list_lookup_insert_ne.
Qed.

Lemma run_callbacks_own (c : cref) (ts : list timeout) (t : timeout) (w w' : world) :
  run_callbacks ts w = Some (tt, w') ->
  filter (fun t' => cb_context t' = c) ts = [t] ->
  exists b, contexts w' !! c = Some {| currentState := b |}
            /\ heap w' !! b = Some (BookedState undefined c).
Proof.
  revert w. induction ts as [|t0 ts IH]; intros w.
  - now intros _ ?.
  - simpl. unfold mbind, M_bind.
    destruct (run_callback t0 w) as [[[] w1]|] eqn:E; [|done].
    intros Hrun Hown.
    destruct (decide (cb_context t0 = c)) as [Ht|Ht].
    + rewrite filter_cons_True in Hown by done. injection Hown as -> Hown.
      destruct (decide (cb_context t < length (contexts w))) as [Hc|Hc].
      2: { exfalso. revert E. exec. now rewrite setCurrentState_None. }
      rewrite (run_callback_run _ _ Hc) in E. injection E as <-.
      exists (length (heap w)). split.
      * rewrite (run_callbacks_foreign _ _ _ _ Hrun Hown). simpl.
        rewrite Ht. apply list_lookup_insert_eq. now rewrite <- Ht.
      * destruct (run_callbacks_heap _ _ _ Hrun) as [l ->]. simpl.
        apply lookup_app_l_Some. rewrite Ht. apply lookup_fresh.
    + rewrite filter_cons_False in Hown by done. now apply (IH w1).
Qed.

Lemma elapse_clock (ms : N) (w w' : world) :
  elapse ms w = Some (tt, w') -> now w' = (now w + ms)%N /\ draws w' = draws w.
Proof. unfold elapse. now intros [-> ->]%run_callbacks_clock. Qed.

Lemma elapse_heap (ms : N) (w w' : world) :
  elapse ms w = Some (tt, w') -> exists l, heap w' = heap w ++ l.
Proof. unfold elapse. now intros [l ->]%run_callbacks_heap; exists l. Qed.

(** ** The store follows the automaton *)

Lemma at_stage_context (c : cref) (st : stage) (w : world) :
  at_stage c st w -> c < length (contexts w).
Proof. intros (s & x & Hc & _). eapply lookup_lt_Some, Hc. Qed.

Section Simulation.

Variable Math_random : nat -> float.
Variable Number_toString : float -> string.
Variable c : cref.

Local Abbreviation step' := (machine_step Math_random Number_toString).

Lemma requestAction_tracks (m : machine) (w : world) :
  tracks c m w ->
  exists a w',
    requestAction Math_random Number_toString c w = Some (a, w')
    /\ fst (step' Book m) = [a]
    /\ tracks c (snd (step' Book m)) w'.
Proof.
  intros [Hwf Hord Hnow Hdraws Hst].
  pose proof (at_stage_context _ _ _ Hst) as Hlt.
  destruct Hst as (s & x & Hc & Hs & Hx).
  pose proof (proj1 (Forall_lookup _ _) (wf_contexts _ Hwf) _ _ Hc) as Hslt.
  simpl in Hslt.
  destruct (book_wf Math_random Number_toString w s Hwf Hslt)
    as (a & w' & Hb & Hwf' & _).
  unfold requestAction, mbind, M_bind. rewrite (active_Some _ _ _ Hc), Hb.
  exists a, w'. split; [reflexivity|]. unfold machine_step.
  destruct (m_stage m) as [|d|id|oldID] eqn:Est; simpl.
  - destruct Hx as [-> Hown].
    rewrite (book_OpenState _ _ _ _ _ Hs Hlt) in Hb. injection Hb as <- <-.
    split; [now rewrite Hdraws|]. split; simpl; try done.
    + now apply enqueue_in_order.
    + now f_equal.
    + exists (length (heap w)), PendingState. simpl.
      split; [now apply list_lookup_insert_eq|]. split; [apply lookup_fresh|].
      split; [done|]. eexists. unfold own_timers. simpl.
      rewrite Hnow. now apply own_enqueue.
  - destruct Hx as [-> Hown].
    rewrite (book_PendingState _ _ _ _ Hs) in Hb. injection Hb as <- <-.
    split; [done|]. split; try done. rewrite Est. now exists s, PendingState.
  - destruct Hx as [-> Hown].
    rewrite (book_BookedState _ _ _ _ _ _ Hs) in Hb. injection Hb as <- <-.
    split; [done|]. split; try done. rewrite Est. eexists s, _; (split; [exact Hc|]); (split; [exact Hs|]); done.
  - destruct Hx as [-> Hown].
    rewrite (book_CancelledState _ _ _ _ _ _ Hs Hlt) in Hb. injection Hb as <- <-.
    split; [done|]. split; simpl; try done.
    + now apply enqueue_in_order.
    + exists (length (heap w)), PendingState. simpl.
      split; [now apply list_lookup_insert_eq|]. split; [apply lookup_fresh|].
      split; [done|]. eexists. unfold own_timers. simpl.
      rewrite Hnow. now apply own_enqueue.
Qed.

Lemma requestCancel_tracks (m : machine) (w : world) :
  tracks c m w ->
  exists a w',
    requestCancel c w = Some (a, w')
    /\ fst (step' Cancel m) = [a]
    /\ tracks c (snd (step' Cancel m)) w'.
Proof.
  intros [Hwf Hord Hnow Hdraws Hst].
  pose proof (at_stage_context _ _ _ Hst) as Hlt.
  destruct Hst as (s & x & Hc & Hs & Hx).
  pose proof (proj1 (Forall_lookup _ _) (wf_contexts _ Hwf) _ _ Hc) as Hslt.
  simpl in Hslt.
  destruct (cancel_wf w s Hwf Hslt) as (a & w' & Hb & Hwf' & _).
  unfold requestCancel, mbind, M_bind. rewrite (active_Some _ _ _ Hc), Hb.
  exists a, w'. split; [reflexivity|]. unfold machine_step.
  destruct (m_stage m) as [|d|id|oldID] eqn:Est; simpl.
  - destruct Hx as [-> Hown].
    rewrite (cancel_OpenState _ _ _ Hs) in Hb. injection Hb as <- <-.
    split; [done|]. split; try done. rewrite Est. eexists s, _; (split; [exact Hc|]); (split; [exact Hs|]); done.
  - destruct Hx as [-> Hown].
    rewrite (cancel_PendingState _ _ Hs) in Hb. injection Hb as <- <-.
    split; [done|]. split; try done. rewrite Est. now exists s, PendingState.
  - destruct Hx as [-> Hown].
    rewrite (cancel_BookedState _ _ _ _ Hs Hlt) in Hb. injection Hb as <- <-.
    split; [done|]. split; simpl; try done.
    exists (length (heap w)), (CancelledState id c). simpl.
    split; [now apply list_lookup_insert_eq|]. split; [apply lookup_fresh|done].
  - destruct Hx as [-> Hown].
    rewrite (cancel_CancelledState _ _ _ _ Hs) in Hb. injection Hb as <- <-.
    split; [done|]. split; try done. rewrite Est. eexists s, _; (split; [exact Hc|]); (split; [exact Hs|]); done.
Qed.

Lemma elapse_tracks (ms : N) (m : machine) (w : world) :
  tracks c m w ->
  exists w', elapse ms w = Some (tt, w')
             /\ tracks c (snd (step' (Wait ms) m)) w'.
Proof.
  intros [Hwf Hord Hnow Hdraws Hst].
  destruct (elapse_wf ms w Hwf) as (w' & He & Hwf' & _).
  exists w'. split; [done|].
  destruct (elapse_clock _ _ _ He) as [Hn Hd].
  pose proof (elapse_timers _ _ _ He) as Ht.
  assert (Hown' : own_timers c w'
                  = filter (fun t => (now w + ms < due t)%N) (own_timers c w)).
  { unfold own_timers. rewrite Ht, later_in_order_filter by done.
    apply filter_swap. }
  unfold elapse in He.
  assert (Hrdy : filter (fun t => cb_context t = c) (ready (now w + ms) (timers w))
                 = filter (fun t => (due t <= now w + ms)%N) (own_timers c w)).
  { unfold own_timers. rewrite ready_in_order by done. apply filter_swap. }
  destruct (run_callbacks_heap _ _ _ He) as [l Hl]. simpl in Hl.
  destruct Hst as (s & x & Hc & Hs & Hx).
  split; simpl.
  - done.
  - rewrite Ht. now apply later_in_order.
  - now rewrite Hn, Hnow.
  - now rewrite Hd.
  - assert (Hkeep : filter (fun t => cb_context t = c) (ready (now w + ms) (timers w)) = []
                    -> contexts w' !! c = Some {| currentState := s |}
                       /\ heap w' !! s = Some x).
    { intros Hnone. rewrite (run_callbacks_foreign _ _ _ _ He Hnone). simpl.
      split; [done|]. rewrite Hl. now apply lookup_app_l_Some. }
    destruct (m_stage m) as [|d|id|oldID].
    + destruct Hx as [-> Hown]. rewrite Hown in Hrdy, Hown'.
      destruct (Hkeep Hrdy) as [Hc' Hs']. now exists s, (OpenState c).
    + destruct Hx as [-> [id Hown]]. rewrite Hown in Hrdy, Hown'.
      rewrite <- Hnow. destruct (d <=? now w + ms)%N eqn:E.
      * apply N.leb_le in E.
        rewrite filter_cons_True in Hrdy by done.
        rewrite filter_cons_False in Hown' by (simpl; lia).
        destruct (run_callbacks_own _ _ _ _ _ He Hrdy) as (b & Hb & Hhb).
        now exists b, (BookedState undefined c).
      * apply N.leb_gt in E.
        rewrite filter_cons_False in Hrdy by (simpl; lia).
        rewrite filter_cons_True in Hown' by done.
        destruct (Hkeep Hrdy) as [Hc' Hs']. exists s, PendingState.
        split; [done|]. split; [done|]. split; [done|]. now exists id.
    + destruct Hx as [-> Hown]. rewrite Hown in Hrdy, Hown'.
      destruct (Hkeep Hrdy) as [Hc' Hs']. now exists s, (BookedState id c).
    + destruct Hx as [-> Hown]. rewrite Hown in Hrdy, Hown'.
      destruct (Hkeep Hrdy) as [Hc' Hs']. now exists s, (CancelledState oldID c).
Qed.

End Simulation.

Lemma machine_run_cons Math_random Number_toString (r : request)
    (rs : list request) (m : machine) :
  machine_run Math_random Number_toString (r :: rs) m =
    (fst (machine_step Math_random Number_toString r m)
       ++ fst (machine_run Math_random Number_toString rs
                 (snd (machine_step Math_random Number_toString r m))),
     snd (machine_run Math_random Number_toString rs
            (snd (machine_step Math_random Number_toString r m)))).
Proof.
  simpl. destruct (machine_step _ _ r m) as [a m1]. simpl.
  now destruct (machine_run _ _ rs m1).
Qed.

Lemma machine_run_app Math_random Number_toString (rs1 rs2 : list request)
    (m : machine) :
  machine_run Math_random Number_toString (rs1 ++ rs2) m =
    (fst (machine_run Math_random Number_toString rs1 m)
       ++ fst (machine_run Math_random Number_toString rs2
                 (snd (machine_run Math_random Number_toString rs1 m))),
     snd (machine_run Math_random Number_toString rs2
            (snd (machine_run Math_random Number_toString rs1 m)))).
Proof.
  revert m. induction rs1 as [|r rs1 IH]; intros m.
  - simpl. now destruct (machine_run _ _ rs2 m).
  - rewrite <- app_comm_cons, !machine_run_cons, IH. simpl.
    now rewrite app_assoc.
Qed.

Lemma tracks_w_open : tracks 0 {| m_now := 0; m_draws := 0; m_stage := in_Open |} w_open.
Proof.
  split; simpl; [exact wf_w_open | constructor | done | done |].
  now exists 0, (OpenState 0).
Qed.

Lemma drive_tracks Math_random Number_toString
    (c : cref) (rs : list request) (m : machine) (w : world) :
  tracks c m w ->
  exists w',
    drive Math_random Number_toString c rs w
      = Some (fst (machine_run Math_random Number_toString rs m), w')
    /\ tracks c (snd (machine_run Math_random Number_toString rs m)) w'.
Proof.
  revert m w. induction rs as [|r rs IH]; intros m w Hw.
  - now exists w.
  - rewrite machine_run_cons. destruct r as [| |ms]; simpl drive;
      unfold mbind at 1, M_bind.
    + destruct (requestAction_tracks Math_random Number_toString c m w Hw)
        as (a & w1 & -> & -> & Hw1).
      destruct (IH _ _ Hw1) as (w' & Hd & Hw').
      unfold mbind, M_bind. rewrite Hd. now exists w'.
    + destruct (requestCancel_tracks Math_random Number_toString c m w Hw)
        as (a & w1 & -> & -> & Hw1).
      destruct (IH _ _ Hw1) as (w' & Hd & Hw').
      unfold mbind, M_bind. rewrite Hd. now exists w'.
    + destruct (elapse_tracks Math_random Number_toString c ms m w Hw)
        as (w1 & -> & Hw1).
      destruct (IH _ _ Hw1) as (w' & Hd & Hw').
      rewrite Hd. now exists w'.
Qed.

(** X1.  A context that is at a stage of the automaton, in a well-formed
    store whose queue is in due order, answers every sequence of requests as
    the automaton does and ends at the stage the automaton ends at, whatever
    other contexts, state objects and timeouts the store holds. *)
Theorem drive_follows_machine Math_random Number_toString
    (c : cref) (rs : list request) (m : machine) (w : world) :
  tracks c m w ->
  exists w',
    drive Math_random Number_toString c rs w
      = Some (fst (machine_run Math_random Number_toString rs m), w')
    /\ tracks c (snd (machine_run Math_random Number_toString rs m)) w'.
Proof.
  revert m w. induction rs as [|r rs IH]; intros m w Hw.
  - now exists w.
  - rewrite machine_run_cons. destruct r as [| |ms]; simpl drive;
      unfold mbind at 1, M_bind.
    + destruct (requestAction_tracks Math_random Number_toString c m w Hw)
        as (a & w1 & -> & -> & Hw1).
      destruct (IH _ _ Hw1) as (w' & Hd & Hw').
      unfold mbind, M_bind. rewrite Hd. now exists w'.
    + destruct (requestCancel_tracks Math_random Number_toString c m w Hw)
        as (a & w1 & -> & -> & Hw1).
      destruct (IH _ _ Hw1) as (w' & Hd & Hw').
      unfold mbind, M_bind. rewrite Hd. now exists w'.
    + destruct (elapse_tracks Math_random Number_toString c ms m w Hw)
        as (w1 & -> & Hw1).
      destruct (IH _ _ Hw1) as (w' & Hd & Hw').
      rewrite Hd. now exists w'.
Qed.

Lemma drive_follows_machine_witness :
  tracks 0 {| m_now := 0; m_draws := 0; m_stage := in_Open |} w_open
  /\ exists w',
       drive half fifty 0 [Cancel; Book; Book; Wait 10000; Book; Cancel; Book] w_open
         = Some (["You haven't booked anything yet";
                  "Event booked with id: 50";
                  "Please wait for booking to load before performing an action!";
                  "You've already booked this event!";
                  "Event cancelled";
                  "Rebooked using old ID: undefined"], w')
       /\ tracks 0 {| m_now := 10000; m_draws := 1; m_stage := in_Pending 20000 |} w'.
Proof.
  split; [exact tracks_w_open|].
  exact (drive_follows_machine half fifty 0
           [Cancel; Book; Book; Wait 10000; Book; Cancel; Book] _ _ tracks_w_open).
Defined.

Lemma new_Context_run (w : world) :
  new_Context w =
    Some (length (contexts w),
          {| now := now w;
             heap := heap w ++ [OpenState (length (contexts w))];
             contexts := contexts w ++ [{| currentState := length (heap w) |}];
             timers := timers w;
             draws := draws w |}).
Proof. reflexivity. Qed.

Lemma new_Context_tracks (w : world) :
  wf w -> in_order (timers w) ->
  exists w',
    new_Context w = Some (length (contexts w), w')
    /\ tracks (length (contexts w))
         {| m_now := now w; m_draws := draws w; m_stage := in_Open |} w'.
Proof.
  intros Hwf Hord. destruct (new_Context_wf w Hwf) as (w' & Hn & Hwf' & _).
  exists w'. split; [done|].
  rewrite new_Context_run in Hn. injection Hn as <-.
  split; simpl; try done.
  exists (length (heap w)), (OpenState (length (contexts w))). simpl.
  split; [now apply list_lookup_middle|]. split; [apply lookup_fresh|].
  split; [done|]. unfold own_timers. simpl. apply filter_none.
  eapply Forall_impl; [apply (wf_timers _ Hwf)|]. simpl. intros; lia.
Qed.

(** X2.  In any well-formed store whose queue is in due order, a context
    made by [new Context()] and then driven by any sequence of requests
    answers as the automaton started in [in_Open]: the contexts, state
    objects and timeouts that the store already holds have no effect on
    it, and the first identifier it draws is the next result of
    [Math.random()]. *)
Theorem new_Context_follows_machine Math_random Number_toString
    (rs : list request) (w : world) :
  wf w -> in_order (timers w) ->
  exists w',
    session Math_random Number_toString rs w
      = Some ((length (contexts w),
               fst (machine_run Math_random Number_toString rs
                      {| m_now := now w; m_draws := draws w; m_stage := in_Open |})),
              w')
    /\ tracks (length (contexts w))
         (snd (machine_run Math_random Number_toString rs
                 {| m_now := now w; m_draws := draws w; m_stage := in_Open |}))
         w'.
Proof.
  intros Hwf Hord.
  destruct (new_Context_tracks w Hwf Hord) as (w1 & Hn & Hw1).
  destruct (drive_tracks Math_random Number_toString _ rs _ _ Hw1)
    as (w' & Hd & Hw').
  exists w'. split; [|done].
  unfold session, mbind at 1, M_bind. rewrite Hn.
  unfold mbind, M_bind. now rewrite Hd.
Qed.

Lemma wf_w_pending : wf w_pending.
Proof.
  split; simpl.
  - apply Forall_cons. split; [intros c [= <-]; lia|].
    apply Forall_singleton. now intros c [=].
  - apply Forall_singleton. simpl. lia.
  - apply Forall_singleton. simpl. lia.
Qed.

Lemma new_Context_follows_machine_witness :
  wf w_pending /\ in_order (timers w_pending)
  /\ exists w',
       session half fifty [Book; Cancel; Wait 10000; Book; Cancel] w_pending
         = Some ((1, ["Event booked with id: 50";
                      "Please wait for booking to load before performing an action!";
                      "You've already booked this event!";
                      "Event cancelled"]), w')
       /\ tracks 1 {| m_now := 10000; m_draws := 2; m_stage := in_Cancelled undefined |} w'.
Proof.
  split; [exact wf_w_pending|].
  assert (Hord : in_order (timers w_pending)) by (repeat constructor).
  split; [exact Hord|].
  exact (new_Context_follows_machine half fifty
           [Book; Cancel; Wait 10000; Book; Cancel] w_pending wf_w_pending Hord).
Defined.

(** ** Consequences for a pending booking *)

Lemma machine_pending Math_random Number_toString (rs : list request)
    (m : machine) (d : N) :
  m_stage m = in_Pending d ->
  (m_now m + total_wait rs < d)%N ->
  machine_run Math_random Number_toString rs m =
    (replicate (calls rs) please_wait,
     {| m_now := m_now m + total_wait rs; m_draws := m_draws m;
        m_stage := in_Pending d |}).
Proof.
  revert m. induction rs as [|r rs IH]; intros [n k st]; simpl; intros -> Hlt.
  - now rewrite N.add_0_r.
  - destruct r as [| |ms]; simpl.
    + rewrite (IH {| m_now := n; m_draws := k; m_stage := in_Pending d |}) by done.
      reflexivity.
    + rewrite (IH {| m_now := n; m_draws := k; m_stage := in_Pending d |}) by done.
      reflexivity.
    + assert (E : (d <=? n + ms)%N = false) by (apply N.leb_gt; lia).
      rewrite E.
      rewrite (IH {| m_now := n + ms; m_draws := k; m_stage := in_Pending d |})
        by (simpl; first [done | lia]).
      simpl. now rewrite N.add_assoc.
Qed.

(** X3.  While a booking is pending, whatever calls are made and however
    they are spread over the time that is left before its completion, each
    [book()] and each [cancel()] is answered "Please wait for booking to load
    before performing an action!" and the booking stays pending with the
    same completion time. *)
Theorem calls_while_pending_wait Math_random Number_toString
    (c : cref) (rs : list request) (m : machine) (w : world) (d : N) :
  tracks c m w ->
  m_stage m = in_Pending d ->
  (m_now m + total_wait rs < d)%N ->
  exists w',
    drive Math_random Number_toString c rs w
      = Some (replicate (calls rs)
                "Please wait for booking to load before performing an action!", w')
    /\ now w' = (now w + total_wait rs)%N
    /\ at_stage c (in_Pending d) w'.
Proof.
  intros Hw Hst Hlt.
  destruct (drive_tracks Math_random Number_toString c rs m w Hw) as (w' & Hd & Hw').
  rewrite (machine_pending _ _ rs m d Hst Hlt) in Hd, Hw'. simpl in Hd.
  exists w'. split; [exact Hd|]. split.
  - rewrite (tracks_now _ _ _ Hw'), (tracks_now _ _ _ Hw). reflexivity.
  - exact (tracks_stage _ _ _ Hw').
Qed.

(** X4.  Calls made while a booking is pending do not postpone its
    completion: after any calls and waits that end before the completion
    time, a wait that reaches it leaves the context with a [BookedState] as
    its active state (whose [id] is [undefined]) and no timeout of its own
    in the queue. *)
Theorem calls_do_not_postpone_completion Math_random Number_toString
    (c : cref) (rs : list request) (ms : N) (m : machine) (w : world) (d : N) :
  tracks c m w ->
  m_stage m = in_Pending d ->
  (m_now m + total_wait rs < d)%N ->
  (d <= m_now m + total_wait rs + ms)%N ->
  exists w',
    drive Math_random Number_toString c (rs ++ [Wait ms]) w
      = Some (replicate (calls rs)
                "Please wait for booking to load before performing an action!", w')
    /\ at_stage c (in_Booked undefined) w'.
Proof.
  intros Hw Hst Hlt Hle.
  destruct (drive_tracks Math_random Number_toString c (rs ++ [Wait ms]) m w Hw)
    as (w' & Hd & Hw').
  rewrite machine_run_app, (machine_pending _ _ rs m d Hst Hlt) in Hd, Hw'.
  simpl in Hd, Hw'.
  assert (E : (d <=? m_now m + total_wait rs + ms)%N = true) by now apply N.leb_le.
  rewrite E in Hw'. rewrite app_nil_r in Hd.
  exists w'. split; [exact Hd|]. exact (tracks_stage _ _ _ Hw').
Qed.

Lemma tracks_w_pending :
  tracks 0 {| m_now := 0; m_draws := 1; m_stage := in_Pending 10000 |} w_pending.
Proof.
  split; simpl; [exact wf_w_pending | repeat constructor | done | done |].
  exists 1, PendingState. repeat split. now exists (number 50).
Qed.

Lemma calls_while_pending_wait_witness :
  tracks 0 {| m_now := 0; m_draws := 1; m_stage := in_Pending 10000 |} w_pending
  /\ (0 + total_wait [Book; Wait 4000; Cancel; Wait 5999; Book] < 10000)%N
  /\ exists w',
       drive half fifty 0 [Book; Wait 4000; Cancel; Wait 5999; Book] w_pending
         = Some (replicate 3
                   "Please wait for booking to load before performing an action!", w')
       /\ now w' = 9999%N
       /\ at_stage 0 (in_Pending 10000) w'.
Proof.
  split; [exact tracks_w_pending|]. split; [reflexivity|].
  apply (calls_while_pending_wait half fifty 0
           [Book; Wait 4000; Cancel; Wait 5999; Book] _ w_pending 10000
           tracks_w_pending); reflexivity.
Defined.

Lemma calls_do_not_postpone_completion_witness :
  tracks 0 {| m_now := 0; m_draws := 1; m_stage := in_Pending 10000 |} w_pending
  /\ exists w',
       drive half fifty 0 ([Book; Wait 9999; Cancel; Book] ++ [Wait 1]) w_pending
         = Some (replicate 3
                   "Please wait for booking to load before performing an action!", w')
       /\ at_stage 0 (in_Booked undefined) w'.
Proof.
  split; [exact tracks_w_pending|].
  apply (calls_do_not_postpone_completion half fifty 0
           [Book; Wait 9999; Cancel; Book] 1 _ w_pending 10000 tracks_w_pending);
    [reflexivity | reflexivity | discriminate].
Defined.

(** ** Cancelling and rebooking *)

Lemma machine_rebook Math_random Number_toString (n : nat) (m : machine) :
  m_stage m = in_Booked undefined ->
  machine_run Math_random Number_toString
    (concat (replicate n [Cancel; Book; Wait BOOKING_DELAY])) m =
    (concat (replicate n ["Event cancelled"; "Rebooked using old ID: undefined"]),
     {| m_now := m_now m + N.of_nat n * BOOKING_DELAY; m_draws := m_draws m;
        m_stage := in_Booked undefined |}).
Proof.
  revert m. induction n as [|n IH]; intros [t k st]; simpl m_stage; intros ->.
  - simpl. now rewrite N.add_0_r.
  - change (concat (replicate (S n) [Cancel; Book; Wait BOOKING_DELAY]))
      with ([Cancel; Book; Wait BOOKING_DELAY]
              ++ concat (replicate n [Cancel; Book; Wait BOOKING_DELAY])).
    rewrite machine_run_app.
    assert (E : machine_run Math_random Number_toString
                  [Cancel; Book; Wait BOOKING_DELAY]
                  {| m_now := t; m_draws := k; m_stage := in_Booked undefined |}
                = (["Event cancelled"; "Rebooked using old ID: undefined"],
                   {| m_now := t + BOOKING_DELAY; m_draws := k;
                      m_stage := in_Booked undefined |})).
    { cbn -[N.add N.leb BOOKING_DELAY]. now rewrite N.leb_refl. }
    rewrite E. cbn [fst snd]. rewrite IH by done. cbn [fst snd m_now m_draws].
    f_equal. f_equal. lia.
Qed.

(** X5.  A completed booking can be cancelled and rebooked any number of
    times: each round of [cancel()], [book()] and a wait of [BOOKING_DELAY]
    is answered "Event cancelled" and "Rebooked using old ID: undefined" and
    leaves the context with a [BookedState] again; no round calls
    [Math.random()]. *)
Theorem rebooking_rounds Math_random Number_toString
    (c : cref) (n : nat) (m : machine) (w : world) :
  tracks c m w ->
  m_stage m = in_Booked undefined ->
  exists w',
    drive Math_random Number_toString c
          (concat (replicate n [Cancel; Book; Wait BOOKING_DELAY])) w
      = Some (concat (replicate n ["Event cancelled";
                                   "Rebooked using old ID: undefined"]), w')
    /\ at_stage c (in_Booked undefined) w'
    /\ draws w' = draws w
    /\ now w' = (now w + N.of_nat n * BOOKING_DELAY)%N.
Proof.
  intros Hw Hst.
  destruct (drive_tracks Math_random Number_toString c
              (concat (replicate n [Cancel; Book; Wait BOOKING_DELAY])) m w Hw)
    as (w' & Hd & Hw').
  rewrite (machine_rebook _ _ n m Hst) in Hd, Hw'. cbn [fst snd] in Hd, Hw'.
  exists w'. split; [exact Hd|]. split; [exact (tracks_stage _ _ _ Hw')|]. split.
  - rewrite (tracks_draws _ _ _ Hw'), (tracks_draws _ _ _ Hw). reflexivity.
  - rewrite (tracks_now _ _ _ Hw'), (tracks_now _ _ _ Hw). reflexivity.
Qed.

Lemma tracks_w_booked :
  tracks 0 {| m_now := 10000; m_draws := 1; m_stage := in_Booked undefined |} w_booked.
Proof.
  split; simpl; [| constructor | done | done |].
  - split; simpl.
    + apply Forall_cons. split; [intros c [= <-]; lia|].
      apply Forall_cons. split; [now intros c [=]|].
      apply Forall_singleton. intros c [= <-]. lia.
    + apply Forall_singleton. simpl. lia.
    + constructor.
  - now exists 2, (BookedState undefined 0).
Qed.

Lemma rebooking_rounds_witness :
  tracks 0 {| m_now := 10000; m_draws := 1; m_stage := in_Booked undefined |} w_booked
  /\ exists w',
       drive half fifty 0 (concat (replicate 2 [Cancel; Book; Wait BOOKING_DELAY])) w_booked
         = Some (["Event cancelled"; "Rebooked using old ID: undefined";
                  "Event cancelled"; "Rebooked using old ID: undefined"], w')
       /\ at_stage 0 (in_Booked undefined) w'
       /\ draws w' = 1
       /\ now w' = 30000%N.
Proof.
  split; [exact tracks_w_booked|].
  apply (rebooking_rounds half fifty 0 2 _ w_booked tracks_w_booked).
  reflexivity.
Defined.

Lemma drive_Cancel_CancelledState Math_random Number_toString
    (c : cref) (n : nat) (w : world) (s : ref) (oldID : value) (c0 : cref) :
  contexts w !! c = Some {| currentState := s |} ->
  heap w !! s = Some (CancelledState oldID c0) ->
  drive Math_random Number_toString c (replicate n Cancel) w
    = Some (replicate n "You've already cancelled this!", w).
Proof.
  intros Hc Hs. induction n as [|n IH]; [done|].
  simpl. unfold mbind at 1, M_bind. unfold requestCancel, mbind at 1, M_bind.
  rewrite (active_Some _ _ _ Hc), (cancel_CancelledState _ _ _ _ Hs).
  unfold mbind, M_bind. now rewrite IH.
Qed.

(** X6.  Cancelling is idempotent.  When the active state of a context is a
    [BookedState] that refers to it, the first [cancel()] answers "Event
    cancelled" and installs a [CancelledState] with the [id] field of the
    [BookedState]; any number of further [cancel()] calls answer "You've
    already cancelled this!" and leave the store exactly as the first one
    left it. *)
Theorem cancel_is_idempotent Math_random Number_toString
    (c : cref) (n : nat) (w : world) (s : ref) (id : value) :
  contexts w !! c = Some {| currentState := s |} ->
  heap w !! s = Some (BookedState id c) ->
  exists w1,
    requestCancel c w = Some ("Event cancelled", w1)
    /\ contexts w1 !! c = Some {| currentState := length (heap w) |}
    /\ heap w1 !! length (heap w) = Some (CancelledState id c)
    /\ drive Math_random Number_toString c (replicate n Cancel) w1
       = Some (replicate n "You've already cancelled this!", w1).
Proof.
  intros Hc Hs. pose proof (lookup_lt_Some _ _ _ Hc) as Hlt.
  eexists. split.
  { unfold requestCancel, mbind, M_bind.
    rewrite (active_Some _ _ _ Hc). apply cancel_BookedState; [exact Hs | exact Hlt]. }
  assert (Hc1 : <[c := {| currentState := length (heap w) |}]> (contexts w) !! c
                = Some {| currentState := length (heap w) |})
    by now apply list_lookup_insert_eq.
  split; [exact Hc1|]. split; [apply lookup_fresh|].
  eapply drive_Cancel_CancelledState; [exact Hc1 | apply lookup_fresh].
Qed.

Lemma cancel_is_idempotent_witness :
  contexts w_booked !! 0 = Some {| currentState := 2 |}
  /\ heap w_booked !! 2 = Some (BookedState undefined 0)
  /\ exists w1,
       requestCancel 0 w_booked = Some ("Event cancelled", w1)
       /\ drive half fifty 0 (replicate 3 Cancel) w1
          = Some (replicate 3 "You've already cancelled this!", w1).
Proof.
  split; [reflexivity|]. split; [reflexivity|].
  destruct (cancel_is_idempotent half fifty 0 3 w_booked 2 undefined)
    as (w1 & H1 & _ & _ & H2); [reflexivity | reflexivity |].
  now exists w1.
Defined.

(** ** What a sequence of requests leaves alone *)

Lemma transition_heap (c : cref) (w w' : world) :
  transition c w w' ->
  (exists l, heap w' = heap w ++ l)
  /\ length (contexts w') = length (contexts w).
Proof.
  intros [->|s _ Eh Ec _].
  - split; [|done]. exists []. now rewrite app_nil_r.
  - split; [now exists [s]|]. rewrite Ec. apply length_insert.
Qed.

(** X7.  From a well-formed store, every sequence of requests on an existing
    context returns one answer for each [book()] and [cancel()] it makes;
    it only adds state objects to the heap, so that no state object is ever
    changed or removed once constructed, and it creates no context. *)
Theorem drive_only_allocates Math_random Number_toString
    (c : cref) (rs : list request) (w : world) :
  wf w -> c < length (contexts w) ->
  exists ms w' l,
    drive Math_random Number_toString c rs w = Some (ms, w')
    /\ length ms = calls rs
    /\ heap w' = heap w ++ l
    /\ length (contexts w') = length (contexts w).
Proof.
  revert w. induction rs as [|r rs IH]; intros w Hwf Hc.
  - exists [], w, []. now rewrite app_nil_r.
  - destruct r as [| |ms]; simpl; unfold mbind at 1, M_bind.
    + destruct (active_wf _ _ Hwf Hc) as (s & Hs & Hlt).
      destruct (book_wf Math_random Number_toString _ _ Hwf Hlt)
        as (a & w1 & Hb & Hwf1 & El).
      destruct (book_transition _ _ _ _ _ _ Hb) as (c0 & _ & Ht & _).
      destruct (transition_heap _ _ _ Ht) as [[l1 Hl1] _].
      unfold requestAction, mbind at 1, M_bind.
      rewrite (active_Some _ _ _ Hs), Hb.
      destruct (IH w1 Hwf1) as (ms & w' & l & Hd & Hn & Hl & El'); [now rewrite El|].
      unfold mbind, M_bind. rewrite Hd.
      exists (a :: ms), w', (l1 ++ l). split; [done|]. split; [simpl; lia|].
      split; [now rewrite Hl, Hl1, app_assoc | now rewrite El', El].
    + destruct (active_wf _ _ Hwf Hc) as (s & Hs & Hlt).
      destruct (cancel_wf _ _ Hwf Hlt) as (a & w1 & Hb & Hwf1 & El).
      destruct (cancel_transition _ _ _ _ Hb) as (c0 & _ & Ht & _).
      destruct (transition_heap _ _ _ Ht) as [[l1 Hl1] _].
      unfold requestCancel, mbind at 1, M_bind.
      rewrite (active_Some _ _ _ Hs), Hb.
      destruct (IH w1 Hwf1) as (ms & w' & l & Hd & Hn & Hl & El'); [now rewrite El|].
      unfold mbind, M_bind. rewrite Hd.
      exists (a :: ms), w', (l1 ++ l). split; [done|]. split; [simpl; lia|].
      split; [now rewrite Hl, Hl1, app_assoc | now rewrite El', El].
    + destruct (elapse_wf ms _ Hwf) as (w1 & He & Hwf1 & El).
      destruct (elapse_heap _ _ _ He) as [l1 Hl1]. rewrite He.
      destruct (IH w1 Hwf1) as (ms' & w' & l & Hd & Hn & Hl & El'); [now rewrite El|].
      exists ms', w', (l1 ++ l). split; [done|]. split; [done|].
      split; [now rewrite Hl, Hl1, app_assoc | now rewrite El', El].
Qed.

Lemma drive_only_allocates_witness :
  wf w_pending /\ 0 < length (contexts w_pending)
  /\ exists ms w' l,
       drive half fifty 0 [Book; Wait 10000; Cancel; Book] w_pending = Some (ms, w')
       /\ length ms = 3
       /\ heap w' = heap w_pending ++ l
       /\ length (contexts w') = 1.
Proof.
  split; [exact wf_w_pending|]. split; [simpl; lia|].
  apply (drive_only_allocates half fifty 0 [Book; Wait 10000; Cancel; Book]
           w_pending wf_w_pending).
  simpl; lia.
Defined.

Lemma own_enqueue_foreign (c : cref) (t : timeout) (q : list timeout) :
  cb_context t <> c ->
  filter (fun t' => cb_context t' = c) (enqueue t q)
    = filter (fun t' => cb_context t' = c) q.
Proof.
  intros Ht. induction q as [|t' q IH]; simpl.
  - now rewrite filter_cons_False.
  - destruct (due t' <=? due t)%N.
    + rewrite !filter_cons, IH. reflexivity.
    + now rewrite (filter_cons_False _ t).
Qed.

(** X8.  A call of [book()] or [cancel()] on a state object changes the
    active state of no context other than the one the object refers to, and
    neither queues nor removes a timeout of another context. *)
Theorem calls_leave_other_contexts Math_random Number_toString
    (w w' : world) (this : ref) (x : AbstractState) (m : string) (c' : cref) :
  heap w !! this = Some x ->
  context_of x <> Some c' ->
  book Math_random Number_toString this w = Some (m, w')
    \/ cancel this w = Some (m, w') ->
  contexts w' !! c' = contexts w !! c'
  /\ own_timers c' w' = own_timers c' w.
Proof.
  intros Hs Hne [Hb|Hb].
  - destruct x as [oldID c|c|id c|]; simpl in Hne.
    + destruct (decide (c < length (contexts w))) as [Hc|Hc].
      * rewrite (book_CancelledState _ _ _ _ _ _ Hs Hc) in Hb.
        injection Hb as _ <-. unfold own_timers. simpl. split.
        -- apply list_lookup_insert_ne. congruence.
        -- apply own_enqueue_foreign. simpl. congruence.
      * exfalso. revert Hb. unfold book, mbind at 1, M_bind.
        rewrite (deref_Some _ _ _ Hs). exec. now rewrite setCurrentState_None.
    + destruct (decide (c < length (contexts w))) as [Hc|Hc].
      * rewrite (book_OpenState _ _ _ _ _ Hs Hc) in Hb.
        injection Hb as _ <-. unfold own_timers. simpl. split.
        -- apply list_lookup_insert_ne. congruence.
        -- apply own_enqueue_foreign. simpl. congruence.
      * exfalso. revert Hb. unfold book, mbind at 1, M_bind.
        rewrite (deref_Some _ _ _ Hs). exec. now rewrite setCurrentState_None.
    + rewrite (book_BookedState _ _ _ _ _ _ Hs) in Hb. now injection Hb as _ <-.
    + rewrite (book_PendingState _ _ _ _ Hs) in Hb. now injection Hb as _ <-.
  - destruct x as [oldID c|c|id c|]; simpl in Hne.
    + rewrite (cancel_CancelledState _ _ _ _ Hs) in Hb. now injection Hb as _ <-.
    + rewrite (cancel_OpenState _ _ _ Hs) in Hb. now injection Hb as _ <-.
    + destruct (decide (c < length (contexts w))) as [Hc|Hc].
      * rewrite (cancel_BookedState _ _ _ _ Hs Hc) in Hb.
        injection Hb as _ <-. unfold own_timers. simpl. split; [|done].
        apply list_lookup_insert_ne. congruence.
      * exfalso. revert Hb. unfold cancel, mbind at 1, M_bind.
        rewrite (deref_Some _ _ _ Hs). exec. now rewrite setCurrentState_None.
    + rewrite (cancel_PendingState _ _ Hs) in Hb. now injection Hb as _ <-.
Qed.

Lemma calls_leave_other_contexts_witness :
  heap w_two !! 0 = Some (OpenState 0)
  /\ context_of (OpenState 0) <> Some 1
  /\ book half fifty 0 w_two
     = Some ("Event booked with id: 50",
             {| now := 0;
                heap := [OpenState 0; OpenState 1; PendingState; PendingState];
                contexts := [{| currentState := 3 |}; {| currentState := 2 |}];
                timers := [{| due := 10000; cb_id := number 50; cb_context := 1 |};
                           {| due := 10000; cb_id := number 50; cb_context := 0 |}];
                draws := 2 |})
  /\ contexts w_two !! 1 = Some {| currentState := 2 |}
  /\ own_timers 1 w_two
     = [{| due := 10000; cb_id := number 50; cb_context := 1 |}].
Proof.
  split; [reflexivity|]. split; [discriminate|]. split; [reflexivity|].
  destruct (calls_leave_other_contexts half fifty w_two
              {| now := 0;
                 heap := [OpenState 0; OpenState 1; PendingState; PendingState];
                 contexts := [{| currentState := 3 |}; {| currentState := 2 |}];
                 timers := [{| due := 10000; cb_id := number 50; cb_context := 1 |};
                            {| due := 10000; cb_id := number 50; cb_context := 0 |}];
                 draws := 2 |}
              0 (OpenState 0) "Event booked with id: 50" 1)
    as [Hc Ht]; [reflexivity | discriminate | left; reflexivity |].
  split; [now rewrite <- Hc | now rewrite <- Ht].
Defined.

(** ** A state object that is no longer active *)

(** X9.  The [book()] of an [OpenState] does not look at the context's
    current state: called twice on the same object, it draws two
    identifiers, queues two completion timeouts for the context and leaves
    the [PendingState] of the second call as the active state; the second
    call is answered "Event booked with id: " with the second identifier. *)
Theorem OpenState_book_twice Math_random Number_toString
    (w : world) (this : ref) (c : cref) :
  heap w !! this = Some (OpenState c) ->
  c < length (contexts w) ->
  exists w',
    (book Math_random Number_toString this;;
     book Math_random Number_toString this) w
      = Some (("Event booked with id: "
                 ++ Number_toString (Math_random (S (draws w)) * 100)%float)%string, w')
    /\ draws w' = S (S (draws w))
    /\ contexts w' !! c = Some {| currentState := S (length (heap w)) |}
    /\ heap w' = heap w ++ [PendingState; PendingState]
    /\ timers w' =
         enqueue {| due := now w + BOOKING_DELAY;
                    cb_id := number (Math_random (S (draws w)) * 100)%float;
                    cb_context := c |}
           (enqueue {| due := now w + BOOKING_DELAY;
                       cb_id := number (Math_random (draws w) * 100)%float;
                       cb_context := c |} (timers w)).
Proof.
  intros Hs Hc. unfold mbind at 1, M_bind.
  rewrite (book_OpenState _ _ _ _ _ Hs Hc).
  rewrite (book_OpenState _ _ _ this c).
  - eexists. split; [reflexivity|]. simpl. split; [done|].
    split; [|split; [|done]].
    + rewrite length_app. simpl. rewrite Nat.add_1_r.
      apply list_lookup_insert_eq. now rewrite length_insert.
    + now rewrite <- app_assoc.
  - simpl. now apply lookup_app_l_Some.
  - simpl. now rewrite length_insert.
Qed.

Lemma OpenState_book_twice_witness :
  heap w_open !! 0 = Some (OpenState 0)
  /\ 0 < length (contexts w_open)
  /\ exists w',
       (book half fifty 0;; book half fifty 0) w_open
         = Some ("Event booked with id: 50", w')
       /\ draws w' = 2
       /\ contexts w' !! 0 = Some {| currentState := 2 |}
       /\ length (timers w') = 2.
Proof.
  split; [reflexivity|]. split; [simpl; lia|].
  destruct (OpenState_book_twice half fifty w_open 0 0)
    as (w' & Hb & Hd & Hc & _ & Ht); [reflexivity | simpl; lia |].
  exists w'. split; [exact Hb|]. split; [exact Hd|]. split; [exact Hc|].
  rewrite Ht. reflexivity.
Defined.

(** ** Identifiers drawn in the lifetime of a context *)

Lemma machine_step_after_Open Math_random Number_toString
    (r : request) (m : machine) :
  m_stage m <> in_Open ->
  m_draws (snd (machine_step Math_random Number_toString r m)) = m_draws m
  /\ m_stage (snd (machine_step Math_random Number_toString r m)) <> in_Open.
Proof.
  destruct m as [t k st]. unfold machine_step. simpl. intros Hst.
  destruct r as [| |ms], st as [|d|id|oldID]; simpl; try done.
  now destruct (d <=? t + ms)%N.
Qed.

Lemma machine_draws_after_Open Math_random Number_toString
    (rs : list request) (m : machine) :
  m_stage m <> in_Open ->
  m_draws (snd (machine_run Math_random Number_toString rs m)) = m_draws m
  /\ m_stage (snd (machine_run Math_random Number_toString rs m)) <> in_Open.
Proof.
  revert m. induction rs as [|r rs IH]; intros m Hst; [done|].
  rewrite machine_run_cons. cbn [snd].
  destruct (machine_step_after_Open Math_random Number_toString r m Hst) as [Hd Hs].
  destruct (IH _ Hs) as [Hd' Hs']. split; [now rewrite Hd', Hd | done].
Qed.

Lemma machine_draws_from_Open Math_random Number_toString
    (rs : list request) (m : machine) :
  m_stage m = in_Open ->
  (Book ∈ rs ->
   m_draws (snd (machine_run Math_random Number_toString rs m)) = S (m_draws m)
   /\ m_stage (snd (machine_run Math_random Number_toString rs m)) <> in_Open)
  /\ (Book ∉ rs ->
      m_draws (snd (machine_run Math_random Number_toString rs m)) = m_draws m
      /\ m_stage (snd (machine_run Math_random Number_toString rs m)) = in_Open).
Proof.
  revert m. induction rs as [|r rs IH]; intros m Hst.
  - split; [now intros ?%elem_of_nil | done].
  - rewrite machine_run_cons. cbn [snd].
    destruct r as [| |ms].
    + split; [intros _ | intros Hn; exfalso; apply Hn; left].
      destruct (machine_draws_after_Open Math_random Number_toString rs
                  (snd (machine_step Math_random Number_toString Book m)))
        as [Hd Hs].
      { unfold machine_step. now rewrite Hst. }
      split; [|done]. rewrite Hd. unfold machine_step. now rewrite Hst.
    + assert (E : snd (machine_step Math_random Number_toString Cancel m) = m)
        by (unfold machine_step; now rewrite Hst).
      rewrite E. destruct (IH m Hst) as [Hin Hout].
      split; [intros [?|Hb]%elem_of_cons; [done | now apply Hin] |].
      intros Hn. apply Hout. intros Hb. apply Hn. now right.
    + assert (E : m_stage (snd (machine_step Math_random Number_toString (Wait ms) m))
                  = in_Open
                  /\ m_draws (snd (machine_step Math_random Number_toString (Wait ms) m))
                     = m_draws m)
        by (unfold machine_step; now rewrite Hst).
      destruct E as [E1 E2]. destruct (IH _ E1) as [Hin Hout]. rewrite E2 in Hin, Hout.
      split; [intros [?|Hb]%elem_of_cons; [done | now apply Hin] |].
      intros Hn. apply Hout. intros Hb. apply Hn. now right.
Qed.

(** C10 (as the spec states it, refuted).  One context is created and the
    [book()] of its [OpenState] (object 0) is called twice, the second time
    when the object is no longer the active state: both calls are answered
    with a new identifier and [Math.random()] has been called twice in the
    lifetime of that one context. *)
Lemma one_context_draws_two_identifiers :
  (c ← new_Context;
   s ← active c;
   a1 ← book half fifty s;
   a2 ← book half fifty s;
   mret (c, s, a1, a2)) empty_world
  = Some ((0, 0, "Event booked with id: 50", "Event booked with id: 50"),
          {| now := 0;
             heap := [OpenState 0; PendingState; PendingState];
             contexts := [{| currentState := 2 |}];
             timers := [{| due := 10000; cb_id := number 50; cb_context := 0 |};
                        {| due := 10000; cb_id := number 50; cb_context := 0 |}];
             draws := 2 |}).
Proof. reflexivity. Qed.

(** C10 (amended).  Every transition made by [book()], by [cancel()] or by a
    completion callback installs a newly allocated state object that is not
    an [OpenState], and only the [book()] of an [OpenState] calls
    [Math.random()].  When every call reaches the state objects through the
    active state of the context, as in a session, the context leaves
    [OpenState] at its first [book()] and does not come back to it, and
    [Math.random()] is called at most once in its lifetime: not at all while
    no [book()] was requested, once otherwise.  This holds for the one
    context of a session that starts from the empty store, and for a context
    created in any well-formed store whose queue is in due order, whatever
    other contexts that store holds. *)
Theorem OpenState_is_never_reentered :
  (forall Math_random Number_toString w w' this m,
     book Math_random Number_toString this w = Some (m, w') ->
     exists c, acts_for w this c /\ transition c w w'
               /\ (draws w' = draws w
                   \/ heap w !! this = Some (OpenState c)
                      /\ draws w' = S (draws w)))
  /\ (forall w w' this m,
        cancel this w = Some (m, w') ->
        exists c, acts_for w this c /\ transition c w w' /\ draws w' = draws w)
  /\ (forall w w' t,
        run_callback t w = Some (tt, w') ->
        transition (cb_context t) w w' /\ draws w' = draws w)
  /\ (forall Math_random Number_toString rs,
        exists ms w s x,
          session Math_random Number_toString rs empty_world = Some (0, ms, w)
          /\ contexts w = [{| currentState := s |}]
          /\ heap w !! s = Some x
          /\ draws w <= 1
          /\ (Book ∈ rs -> draws w = 1 /\ forall c, x <> OpenState c)
          /\ (Book ∉ rs -> draws w = 0 /\ x = OpenState 0))
  /\ (forall Math_random Number_toString rs w,
        wf w -> in_order (timers w) ->
        exists ms w' s x,
          session Math_random Number_toString rs w
            = Some ((length (contexts w), ms), w')
          /\ contexts w' !! length (contexts w) = Some {| currentState := s |}
          /\ heap w' !! s = Some x
          /\ draws w' <= S (draws w)
          /\ (Book ∈ rs -> draws w' = S (draws w) /\ forall c, x <> OpenState c)
          /\ (Book ∉ rs ->
              draws w' = draws w /\ x = OpenState (length (contexts w)))).
Proof.
  split; [|split; [|split; [|split]]].
  - intros MR NT w w' this m. apply book_transition.
  - intros w w' this m. apply cancel_transition.
  - intros w w' t. apply run_callback_transition.
  - intros MR NT rs.
    destruct (session_phase MR NT rs) as (ms & w & Hs & Hp & Hin & Hout).
    destruct Hp as [s Hc Hh Ht Hd|s t Hc Hh Ht Hct Hd|s Hc Hh Ht Hd|s Hc Hh Ht Hd];
      exists ms, w, s; eexists; (split; [exact Hs|]); (split; [exact Hc|]);
      (split; [exact Hh|]); (split; [lia|]); split.
    + intros Hb. specialize (Hin Hb). lia.
    + done.
    + done.
    + intros Hb. specialize (Hout Hb). lia.
    + done.
    + intros Hb. specialize (Hout Hb). lia.
    + done.
    + intros Hb. specialize (Hout Hb). lia.
  - intros MR NT rs w Hwf Hord.
    destruct (new_Context_tracks w Hwf Hord) as (w1 & Hn & Hw1).
    destruct (drive_tracks MR NT _ rs _ _ Hw1) as (w' & Hd & Hw').
    destruct (machine_draws_from_Open MR NT rs
                {| m_now := now w; m_draws := draws w; m_stage := in_Open |}
                eq_refl) as [Hin Hout].
    simpl in Hin, Hout.
    destruct (tracks_stage _ _ _ Hw') as (s & x & Hc & Hs & Hx).
    pose proof (tracks_draws _ _ _ Hw') as Hdr.
    exists (fst (machine_run MR NT rs
                   {| m_now := now w; m_draws := draws w; m_stage := in_Open |})),
           w', s, x.
    split.
    { unfold session, mbind at 1, M_bind. rewrite Hn.
      unfold mbind, M_bind. now rewrite Hd. }
    split; [exact Hc|]. split; [exact Hs|].
    destruct (decide (Book ∈ rs)) as [Hb|Hb].
    + destruct (Hin Hb) as [Hn1 Hst]. rewrite Hdr, Hn1.
      split; [lia|]. split; [|done]. intros _. split; [done|].
      intros c0 ->.
      destruct (m_stage (snd (machine_run MR NT rs
                  {| m_now := now w; m_draws := draws w; m_stage := in_Open |})))
        as [|d|id|oldID]; [done| | |]; now destruct Hx.
    + destruct (Hout Hb) as [Hn0 Hst]. rewrite Hdr, Hn0.
      split; [lia|]. split; [done|]. intros _. split; [done|].
      rewrite Hst in Hx. now destruct Hx.
Qed.

Lemma OpenState_is_never_reentered_witness :
  book half fifty 3 w_cancelled =
    Some ("Rebooked using old ID: undefined",
          {| now := 10000;
             heap := [OpenState 0; PendingState; BookedState undefined 0;
                      CancelledState undefined 0; PendingState];
             contexts := [{| currentState := 4 |}];
             timers := [{| due := 20000; cb_id := undefined; cb_context := 0 |}];
             draws := 1 |})
  /\ exists c w', acts_for w_cancelled 3 c
                  /\ transition c w_cancelled w' /\ draws w' = 1
                  /\ forall c', heap w' !! 4 <> Some (OpenState c').
Proof.
  split; [reflexivity|].
  destruct (proj1 OpenState_is_never_reentered half fifty w_cancelled
              {| now := 10000;
                 heap := [OpenState 0; PendingState; BookedState undefined 0;
                          CancelledState undefined 0; PendingState];
                 contexts := [{| currentState := 4 |}];
                 timers := [{| due := 20000; cb_id := undefined;
                               cb_context := 0 |}];
                 draws := 1 |} 3 "Rebooked using old ID: undefined")
    as (c & Hact & Htr & _); [reflexivity|].
  exists c. eexists. split; [exact Hact|]. split; [exact Htr|].
  split; [reflexivity | discriminate].
Defined.
